(** * Pyro: the mean-field ELBO estimator and the jit wrapper

    A shallow embedding of [pyro/infer/trace_mean_field_elbo.py] and of
    [pyro/ops/jit.py], with the properties of their specification.

    Conventions.
    - Scalars (0-dimensional tensors and Python numbers alike) are
      rationals: the arithmetic is exact, so that the sum of a tensor
      does not depend on the order in which its entries are added.
    - A Python exception is a value of [exn]; a computation that can
      raise returns a [result].
    - An [assert] statement is executed: the interpreter does not run
      with optimization on.
    - What the estimator does besides computing (warnings, calls to the
      KL collaborator) is kept in a log of [event]s, in program order.
    - The wrapper is a field of a world that also has the global
      parameter store and the record of what has happened; a call takes
      a world and gives a world and a result. The compilation backend is
      a parameter of the wrapper: whether it runs the closure, how it
      fails, and what a call of one of its artifacts does. *)

From Stdlib Require Import QArith.
From stdpp Require Import gmap strings list fin_maps.

Set Default Proof Using "Type".

(** ** Python exceptions and results *)

Module Py.

Inductive exn : Type :=
| NotImplementedError (msg : string)
| AssertionError
| KeyError (key : string)
| ZeroDivisionError
| TypeError
| AttributeError (attr : string)
| OtherError (what : string).

Inductive result (A : Type) : Type :=
| Ret (a : A)
| Raise (e : exn).
Arguments Ret {A} a.
Arguments Raise {A} e.

Definition is_Ret {A} (r : result A) : Prop :=
  match r with Ret _ => True | Raise _ => False end.

Definition is_Raise {A} (r : result A) : Prop :=
  match r with Ret _ => False | Raise _ => True end.

#[global] Instance exn_eq_dec : EqDecision exn.
Proof. solve_decision. Defined.

(** A line feed, for the messages that contain one. *)
Definition nl : string := String (Ascii.ascii_of_nat 10) EmptyString.

End Py.
Export Py.

(** ** The mean-field ELBO estimator *)

Module MeanField.

(** *** Data model *)

Record tensor : Type := {
  shape : list nat;
  elems : list Q
}.

(** [t.sum()] *)
Definition tsum (t : tensor) : Q := fold_left Qplus (elems t) 0%Q.

(** A distribution object: what the estimator reads from it. *)
Record Dist : Type := {
  family : string;
  has_rsample : bool;
  batch_shape : list nat
}.

(** A term of [score_parts]: a tensor, or a plain Python number (the
    number zero stands for a term that is absent). *)
Inductive term : Type :=
| Number (x : Q)
| Tensor (t : tensor).

(** [x.sum()]: a tensor has the method, a plain number has not. *)
Definition term_sum (x : term) : result Q :=
  match x with
  | Number _ => Raise (AttributeError "sum")
  | Tensor t => Ret (tsum t)
  end.

(** The named 3-tuple [score_parts]. *)
Record ScoreParts : Type := {
  log_prob : term;
  score_function : term;
  entropy_term : term
}.

Record Site : Type := {
  type : string;
  fn : Dist;
  is_observed : bool;
  log_prob_sum : Q;
  scale : Q;
  mask : option (list bool);
  score_parts : ScoreParts;
  infer : list (string * bool)
}.

(** A trace: [nodes], an ordered mapping from site name to site. *)
Definition Trace : Type := list (string * Site).

(** [name in trace.nodes] *)
Definition contains (name : string) (tr : Trace) : bool :=
  bool_decide (name ∈ tr.*1).

(** [trace.nodes[name]], a [KeyError] when the name is absent *)
Fixpoint getitem (name : string) (tr : Trace) : result Site :=
  match tr with
  | [] => Raise (KeyError name)
  | (n, site) :: rest => if decide (n = name) then Ret site else getitem name rest
  end.

(** [d.get(key)] on the inference hints; an absent key gives [None],
    which is falsy. *)
Fixpoint get_hint (key : string) (d : list (string * bool)) : bool :=
  match d with
  | [] => false
  | (k, v) :: rest => if decide (k = key) then v else get_hint key rest
  end.

(** *** Effects: a log of events and exceptions *)

Inductive event : Type :=
| Warning (msg : string)
| KLAttempt (name : string) (q p : Dist).

Definition M (A : Type) : Type := list event * result A.

Definition ret {A} (a : A) : M A := ([], Ret a).
Definition raise {A} (e : exn) : M A := ([], Raise e).
Definition emit (ev : event) : M unit := ([ev], Ret tt).

Definition bind {A B} (m : M A) (k : A → M B) : M B :=
  match m with
  | (log, Ret a) => let '(log', r) := k a in (log ++ log', r)
  | (log, Raise e) => (log, Raise e)
  end.

(** [try: body except NotImplementedError: handler] *)
Definition try_except_NotImplementedError {A} (body : M A) (handler : M A) : M A :=
  match body with
  | (log, Raise (NotImplementedError _)) =>
      let '(log', r) := handler in (log ++ log', r)
  | other => other
  end.

Declare Scope py_scope.
Delimit Scope py_scope with py.
Notation "x <- c ;; k" := (bind c (fun x => k))
  (at level 100, c at next level, right associativity) : py_scope.
Notation "c ;; k" := (bind c (fun _ => k))
  (at level 100, right associativity) : py_scope.
Notation "'assert' b" := (if b then ret tt else raise AssertionError)
  (at level 90, only parsing) : py_scope.
Local Open Scope py_scope.

(** [for x in l: s = body(s, x)] *)
Fixpoint for_each {S A} (body : S → A → M S) (l : list A) (s : S) : M S :=
  match l with
  | [] => ret s
  | x :: rest => s' <- body s x ;; for_each body rest s'
  end.

Definition log_of {A} (m : M A) : list event := m.1.
Definition outcome {A} (m : M A) : result A := m.2.

(** *** _check_mean_field_requirement *)

Definition sample_sites_in (a b : Trace) : list string :=
  (filter (λ entry : string * Site,
             type entry.2 = "sample" ∧ contains entry.1 b = true) a).*1.

Definition mean_field_warning (model_sites guide_sites : list string) : string :=
  ("Failed to verify mean field restriction on the guide. "
   +:+ "To eliminate this warning, ensure model and guide sites "
   +:+ "occur in the same order." +:+ nl)
  +:+ ("Model sites:" +:+ nl +:+ "  ")
  +:+ String.concat (nl +:+ "  ") model_sites
  +:+ ("Guide sites:" +:+ nl +:+ "  ")
  +:+ String.concat (nl +:+ "  ") guide_sites.

Definition _check_mean_field_requirement (model_trace guide_trace : Trace) : M unit :=
  let model_sites := sample_sites_in model_trace guide_trace in
  let guide_sites := sample_sites_in guide_trace model_trace in
  assert (bool_decide (list_to_set model_sites =@{gset string} list_to_set guide_sites)) ;;
  if bool_decide (model_sites ≠ guide_sites)
  then emit (Warning (mean_field_warning model_sites guide_sites))
  else ret tt.

Section Estimator.

(** The collaborators of the estimator, which live outside these
    sources: the validation switch of [pyro.infer.util], the helpers
    [is_identically_zero] and [scale_and_mask] of
    [pyro.distributions.util], and [torch.distributions.kl_divergence],
    which raises [NotImplementedError] for a pair of distributions it has
    no formula for. *)
Variable is_validation_enabled : bool.
Variable is_identically_zero : term → bool.
Variable scale_and_mask : tensor → Q → option (list bool) → tensor.
Variable kl_divergence : Dist → Dist → result tensor.

(** [torch_item]: a 0-dimensional tensor as a plain number. *)
Definition torch_item (x : Q) : Q := x.

(** [kl_divergence(q, p)], called while the site [name] is processed. *)
Definition call_kl_divergence (name : string) (q p : Dist) : M tensor :=
  emit (KLAttempt name q p) ;; ([], kl_divergence q p).

(** *** _get_trace

    [super()._get_trace] belongs to [Trace_ELBO]; the pair of traces it
    returns is the argument here. *)
Definition _get_trace (super_get_trace : Trace * Trace) : M (Trace * Trace) :=
  let '(model_trace, guide_trace) := super_get_trace in
  (if is_validation_enabled
   then _check_mean_field_requirement model_trace guide_trace
   else ret tt) ;;
  ret (model_trace, guide_trace).

(** *** _check_fully_reparametrized *)

Definition fully_rep (guide_site : Site) : bool :=
  let log_prob := log_prob (score_parts guide_site) in
  let score_function_term := score_function (score_parts guide_site) in
  let entropy_term := entropy_term (score_parts guide_site) in
  has_rsample (fn guide_site)
  && negb (is_identically_zero entropy_term)
  && is_identically_zero score_function_term.

Definition not_reparameterized_msg : string :=
  "All distributions in the guide must be fully reparameterized.".

Definition _check_fully_reparametrized (guide_site : Site) : M unit :=
  if negb (fully_rep guide_site)
  then raise (NotImplementedError not_reparameterized_msg)
  else ret tt.

(** The check is passed, or is not run. *)
Definition check_passes (guide_site : Site) : Prop :=
  is_validation_enabled = false ∨ fully_rep guide_site = true.

(** *** _differentiable_loss_particle *)

(** The body of the loop over the model trace. *)
Definition model_site_step (guide_trace : Trace)
    (elbo_particle : Q) (entry : string * Site) : M Q :=
  let '(name, model_site) := entry in
  if decide (type model_site = "sample") then
    if is_observed model_site then
      ret (elbo_particle + log_prob_sum model_site)%Q
    else
      guide_site <- ([], getitem name guide_trace) ;;
      (if is_validation_enabled
       then _check_fully_reparametrized guide_site
       else ret tt) ;;
      try_except_NotImplementedError
        (kl_qp <- call_kl_divergence name (fn guide_site) (fn model_site) ;;
         let kl_qp := scale_and_mask kl_qp (scale guide_site) (mask guide_site) in
         assert (bool_decide (shape kl_qp = batch_shape (fn guide_site))) ;;
         ret (elbo_particle - tsum kl_qp)%Q)
        (let entropy_term := entropy_term (score_parts guide_site) in
         entropy_sum <- ([], term_sum entropy_term) ;;
         ret (elbo_particle + log_prob_sum model_site - entropy_sum)%Q)
  else ret elbo_particle.

(** The body of the loop over the guide trace (auxiliary sites). *)
Definition guide_site_step (model_trace : Trace)
    (elbo_particle : Q) (entry : string * Site) : M Q :=
  let '(name, guide_site) := entry in
  if bool_decide (type guide_site = "sample") && negb (contains name model_trace) then
    assert (get_hint "is_auxiliary" (infer guide_site)) ;;
    (if is_validation_enabled
     then _check_fully_reparametrized guide_site
     else ret tt) ;;
    let entropy_term := entropy_term (score_parts guide_site) in
    entropy_sum <- ([], term_sum entropy_term) ;;
    ret (elbo_particle - entropy_sum)%Q
  else ret elbo_particle.

(** The value of [elbo_particle] when the two loops are over: the ELBO
    of the particle. *)
Definition elbo_of_particle (model_trace guide_trace : Trace) : M Q :=
  elbo_particle <- for_each (model_site_step guide_trace) model_trace 0%Q ;;
  for_each (guide_site_step model_trace) guide_trace elbo_particle.

Definition _differentiable_loss_particle (model_trace guide_trace : Trace) : M (Q * Q) :=
  elbo_particle <- elbo_of_particle model_trace guide_trace ;;
  ret (- torch_item elbo_particle, - elbo_particle)%Q.

(** *** loss

    [self._get_traces] belongs to the base class; the pairs of traces it
    enumerates are the argument [traces]. [warn_if_nan] never fires on a
    rational and is left out. *)
Definition loss_step (num_particles : Z) (elbo : Q) (pair : Trace * Trace) : M Q :=
  let '(model_trace, guide_trace) := pair in
  r <- _differentiable_loss_particle model_trace guide_trace ;;
  let elbo_particle := r.1 in
  if decide (num_particles = 0%Z) then raise ZeroDivisionError
  else ret (elbo + elbo_particle / inject_Z num_particles)%Q.

Definition loss (num_particles : Z) (traces : list (Trace * Trace)) : M Q :=
  elbo <- for_each (loss_step num_particles) traces 0%Q ;;
  let loss := (- elbo)%Q in
  ret loss.

End Estimator.

(** *** Vocabulary of the properties *)

(** The sum of the [log_prob_sum] of the sample sites of a trace. *)
Definition total_log_prob (tr : Trace) : Q :=
  foldl (λ acc entry,
           if decide (type entry.2 = "sample")
           then acc + log_prob_sum entry.2 else acc)%Q 0%Q tr.

(** The sample sites of the trace are all observed. *)
Definition all_observed (tr : Trace) : Prop :=
  Forall (λ entry : string * Site,
            type entry.2 = "sample" → is_observed entry.2 = true) tr.

Definition no_sample_site (tr : Trace) : Prop :=
  Forall (λ entry : string * Site, type entry.2 ≠ "sample") tr.

(** The names that a trace has in common with another one, in the
    order of the first. *)
Definition common_names (a b : Trace) : list string :=
  filter (λ name, contains name b = true) a.*1.

(** An event that is not a call to the KL collaborator for the site
    [name]. *)
Definition not_kl_of (name : string) (ev : event) : Prop :=
  match ev with
  | KLAttempt n _ _ => n ≠ name
  | Warning _ => True
  end.

Definition sum_Q (l : list Q) : Q := foldr Qplus 0%Q l.

(** The call to the KL collaborator that the step of an entry of the
    model trace makes when it gets that far. *)
Definition attempts_of (guide_trace : Trace) (entry : string * Site) : list event :=
  let '(name, site) := entry in
  if decide (type site = "sample") then
    if is_observed site then []
    else match getitem name guide_trace with
         | Ret guide_site => [KLAttempt name (fn guide_site) (fn site)]
         | Raise _ => []
         end
  else [].

Definition latent_attempts (guide_trace model_trace : Trace) : list event :=
  concat (map (attempts_of guide_trace) model_trace).

(** [name] is a sample site of [a], and [b] has the name. *)
Definition shared_sample (a b : Trace) (name : string) : Prop :=
  ∃ site, (name, site) ∈ a ∧ type site = "sample" ∧ name ∈ b.*1.

(** The logs of the particles of a list of pairs of traces, one after
    the other. *)
Definition particle_logs (validation : bool) (is_zero : term → bool)
    (scale_mask : tensor → Q → option (list bool) → tensor)
    (kl : Dist → Dist → result tensor)
    (traces : list (Trace * Trace)) : list event :=
  concat (map (λ pair, log_of (_differentiable_loss_particle validation is_zero
                                 scale_mask kl pair.1 pair.2)) traces).

(** *** Concrete collaborators and sites, for the examples *)

(** Modelled from the spec: [is_identically_zero] is defined in
    [pyro.distributions.util], outside these sources; a term is
    identically zero when it is the plain number zero, and a tensor never
    is. *)
Definition number_is_zero (x : term) : bool :=
  match x with
  | Number q => Qeq_bool q 0
  | Tensor _ => false
  end.

(** Modelled from the spec: [scale_and_mask] is defined in
    [pyro.distributions.util], outside these sources; it multiplies every
    entry by the scale and puts zero where the mask is false. *)
Definition scale_and_mask_entries (t : tensor) (scale : Q) (mask : option (list bool)) : tensor :=
  {| shape := shape t;
     elems := match mask with
              | None => map (Qmult scale) (elems t)
              | Some bs => zip_with (λ x (b : bool), if b then (scale * x)%Q else 0%Q) (elems t) bs
              end |}.

(** A KL collaborator with one registered formula, for two normal
    distributions; its value has the batch shape of the second one and
    one half in every entry. Any other pair is not implemented. *)
Definition kl_normal_only (q p : Dist) : result tensor :=
  if bool_decide (family q = "Normal" ∧ family p = "Normal")
  then Ret {| shape := batch_shape p;
              elems := replicate (foldr Nat.mul 1%nat (batch_shape p)) (1 # 2)%Q |}
  else Raise (NotImplementedError "").

(** A KL collaborator that fails on every pair with an exception of
    its own. *)
Definition kl_broken (q p : Dist) : result tensor :=
  Raise (OtherError "ValueError").

Definition scalar (x : Q) : tensor := {| shape := []; elems := [x] |}.

Definition Normal (batch : list nat) : Dist :=
  {| family := "Normal"; has_rsample := true; batch_shape := batch |}.
Definition Gamma (batch : list nat) : Dist :=
  {| family := "Gamma"; has_rsample := true; batch_shape := batch |}.
Definition Bernoulli (batch : list nat) : Dist :=
  {| family := "Bernoulli"; has_rsample := false; batch_shape := batch |}.
(** A rejection sampler: it has [rsample], and a score-function term
    all the same. *)
Definition Rejector (batch : list nat) : Dist :=
  {| family := "Rejector"; has_rsample := true; batch_shape := batch |}.

(** The score parts of a reparameterized distribution, and of one that
    is not. *)
Definition reparameterized_parts (lp : Q) : ScoreParts :=
  {| log_prob := Tensor (scalar lp); score_function := Number 0;
     entropy_term := Tensor (scalar lp) |}.
Definition score_function_parts (lp : Q) : ScoreParts :=
  {| log_prob := Tensor (scalar lp); score_function := Tensor (scalar lp);
     entropy_term := Number 0 |}.

Definition rejector_parts (lp sf : Q) : ScoreParts :=
  {| log_prob := Tensor (scalar lp); score_function := Tensor (scalar sf);
     entropy_term := Tensor (scalar lp) |}.

Definition observed_site (d : Dist) (lp : Q) : Site :=
  {| type := "sample"; fn := d; is_observed := true; log_prob_sum := lp;
     scale := 1; mask := None; score_parts := reparameterized_parts lp; infer := [] |}.
Definition latent_site (d : Dist) (parts : ScoreParts) (lp : Q) : Site :=
  {| type := "sample"; fn := d; is_observed := false; log_prob_sum := lp;
     scale := 1; mask := None; score_parts := parts; infer := [] |}.
Definition auxiliary_site (d : Dist) (parts : ScoreParts) (lp : Q) : Site :=
  {| type := "sample"; fn := d; is_observed := false; log_prob_sum := lp;
     scale := 1; mask := None; score_parts := parts;
     infer := [("is_auxiliary", true)] |}.
Definition param_site : Site :=
  {| type := "param"; fn := Normal []; is_observed := false; log_prob_sum := 0;
     scale := 1; mask := None; score_parts := reparameterized_parts 0; infer := [] |}.

(** A model with an observed site and two latent sites, and a guide for
    it with two normal sites. *)
Definition example_model : Trace :=
  [("x", observed_site (Normal []) (-3));
   ("z", latent_site (Normal []) (reparameterized_parts (-2)) (-2));
   ("y", latent_site (Gamma []) (reparameterized_parts (-4)) (-4))].
Definition example_guide : Trace :=
  [("z", latent_site (Normal []) (reparameterized_parts (-1)) (-1));
   ("y", latent_site (Normal []) (reparameterized_parts (-1)) (-1))].

(** A model with a latent site that the empty guide does not have. *)
Definition unguided_model : Trace :=
  [("x", observed_site (Normal []) (-3));
   ("z", latent_site (Normal []) (reparameterized_parts (-2)) (-2))].

End MeanField.

(** ** The jit wrapper *)

Module Jit.

(** *** Data model *)

(** A tensor or any other Python value, opaque here and compared by
    identity. *)
Definition Value : Type := Z.

Abbreviation Args := (list Value).
Abbreviation Kwargs := (list (string * Value)).

(** The global parameter store: the unconstrained tensor of every
    parameter that has been initialized. *)
Abbreviation ParamStore := (gmap string Value).

(** The conditions under which the wrapped function runs: under the
    parameter capture of a first call, under the tracing of the
    compilation backend, or inside an artifact that runs the closure. *)
Inductive Phase : Type := Capture | Compile | Invoke.

(** One run of Python code, of the wrapped function or of an artifact:
    the names of the parameter sites it goes through, in order, the
    parameter store it leaves (the code is free to initialize, replace
    and remove parameters), and how it ends. *)
Record Run : Type := {
  param_sites : list string;
  store_after : ParamStore;
  returned : result Value
}.

(** What [torch.jit.trace] returns, told by what it was made from. The
    closure has captured the keyword arguments of the call that compiled
    it (and a weak reference to the wrapper, whose attributes it reads
    when it runs). *)
Record Artifact : Type := {
  closure_kwargs : Kwargs;
  example_inputs : list Value
}.

Record CompiledFunction : Type := {
  compiled : gmap nat Artifact;
  ignore_warnings : bool;
  _param_names : option (list string)
}.

(** The compilation backend, [torch.jit.trace], is not in these sources.
    What the wrapper depends on is left open: the exception with which
    the backend may turn down the example inputs before it runs anything;
    whether it runs the closure it is given on the example inputs (it
    does when it traces; with the JIT switched off it hands the closure
    back as it is); the exception of its own that it may raise once that
    run has returned, given the keyword arguments of the closure, the
    example inputs and the value of the run; and what a call of one of
    its artifacts does, given the wrapper as it is at the time of the
    call, the parameter store and the inputs. *)
Record Backend : Type := {
  rejects : list Value → option exn;
  traces : bool;
  trace_failure : Kwargs → list Value → Value → option exn;
  artifact_run : Artifact → CompiledFunction → ParamStore → list Value → Run
}.

Inductive event : Type :=
| FnCall (phase : Phase) (args : Args) (kwargs : Kwargs)
| BackendCompile (example : list Value)
| ArtifactCall (argc : nat) (params_and_args : list Value).

(** The wrapper, the parameter store and what has happened so far. *)
Record World : Type := {
  self : CompiledFunction;
  param_store : ParamStore;
  events : list event
}.

(** *** A state and exception monad *)

Definition Py (A : Type) : Type := World → World * result A.

#[global] Instance Py_ret : MRet Py := λ A a w, (w, Ret a).
#[global] Instance Py_bind : MBind Py := λ A B k m w,
  match m w with
  | (w', Ret a) => k a w'
  | (w', Raise e) => (w', Raise e)
  end.

Definition raise {A} (e : exn) : Py A := λ w, (w, Raise e).
Definition get : Py World := λ w, (w, Ret w).
Definition log_event (ev : event) : Py unit := λ w,
  ({| self := self w; param_store := param_store w; events := events w ++ [ev] |}, Ret tt).
Definition set_self (f : CompiledFunction → CompiledFunction) : Py unit := λ w,
  ({| self := f (self w); param_store := param_store w; events := events w |}, Ret tt).
Definition set_store (f : ParamStore → ParamStore) : Py unit := λ w,
  ({| self := self w; param_store := f (param_store w); events := events w |}, Ret tt).

Definition assert (b : bool) : Py unit :=
  if b then mret tt else raise AssertionError.

(** [[body(x) for x in l]] *)
Fixpoint for_list {A B} (body : A → Py B) (l : list A) : Py (list B) :=
  match l with
  | [] => mret []
  | x :: rest => y ← body x; ys ← for_list body rest; mret (y :: ys)
  end.

(** The keys of a dictionary filled in the order of [l]. *)
Fixpoint dict_keys_from (seen l : list string) : list string :=
  match l with
  | [] => []
  | x :: rest =>
      if bool_decide (x ∈ seen) then dict_keys_from seen rest
      else x :: dict_keys_from (x :: seen) rest
  end.
Definition dict_keys (l : list string) : list string := dict_keys_from [] l.

(** [list(set(keys))]: the names without repetition, in the order of the
    set, which is one order among others: nothing below depends on which
    it is. *)
Definition list_of_set (keys : list string) : list string :=
  elements (list_to_set keys : gset string).

(** *** The parameter store *)

(** [pyro.param(name).unconstrained()] for a parameter that is assumed
    to be initialized. *)
Definition param_unconstrained (name : string) : Py Value :=
  w ← get;
  match param_store w !! name with
  | Some v => mret v
  | None => raise (KeyError name)
  end.

Definition new_param_msg (name : string) : string :=
  "pyro.ops.jit.trace assumes all params are created on "
  +:+ "first invocation, but found new param: " +:+ name.

Section Wrapper.

(** The wrapped function [self.fn]. *)
Variable fn : Phase → ParamStore → Args → Kwargs → Run.

(** The backend that [torch.jit.trace] stands for. *)
Variable backend : Backend.

(** What a run does to the world, under a trace that records the
    parameter sites: their names, and the value returned. *)
Definition perform (run : Run) : Py (list string * Value) :=
  set_store (λ _, store_after run);;
  match returned run with
  | Ret v => mret (param_sites run, v)
  | Raise e => raise e
  end.

(** The call of [self.fn] on the arguments. *)
Definition call_fn (phase : Phase) (args : Args) (kwargs : Kwargs) : Py (list string * Value) :=
  w ← get;
  log_event (FnCall phase args kwargs);;
  perform (fn phase (param_store w) args kwargs).

Definition __init__ (ignore_warnings : bool) : CompiledFunction :=
  {| compiled := ∅; ignore_warnings := ignore_warnings; _param_names := None |}.

(** [self._param_names], where a list is needed. *)
Definition the_param_names : Py (list string) :=
  w ← get;
  match _param_names (self w) with
  | Some names => mret names
  | None => raise TypeError
  end.

(** The closure [compiled] of [__call__]; [kwargs] is the variable of
    the call that defined it. It gives back the parameter sites it went
    through and the value of the replayed function. *)
Definition compiled_closure (phase : Phase) (kwargs : Kwargs)
    (params_and_args : list Value) : Py (list string * Value) :=
  names ← the_param_names;
  let unconstrained_params := take (length names) params_and_args in
  let args := drop (length names) params_and_args in
  constrained_params ← for_list (λ '(name, unconstrained_param),
      constrained_param ← param_unconstrained name;
      assert (bool_decide (constrained_param = unconstrained_param));;
      mret name) (zip names unconstrained_params);
  r ← call_fn phase args kwargs;
  mret (constrained_params ++ r.1, r.2).

(** [torch.jit.trace(compiled, params_and_args, check_trace=False)]. *)
Definition torch_jit_trace (kwargs : Kwargs) (params_and_args : list Value) : Py Artifact :=
  log_event (BackendCompile params_and_args);;
  match rejects backend params_and_args with
  | Some e => raise e
  | None =>
      (if traces backend then
         r ← compiled_closure Compile kwargs params_and_args;
         match trace_failure backend kwargs params_and_args r.2 with
         | Some e => raise e
         | None => mret tt
         end
       else mret tt);;
      mret {| closure_kwargs := kwargs; example_inputs := params_and_args |}
  end.

(** The call of [self.compiled[argc]] on [params_and_args], under the
    trace that records the parameter sites. *)
Definition call_artifact (argc : nat) (params_and_args : list Value) : Py (list string * Value) :=
  w ← get;
  match compiled (self w) !! argc with
  | None => raise (KeyError "argc")
  | Some artifact =>
      log_event (ArtifactCall argc params_and_args);;
      perform (artifact_run backend artifact (self w) (param_store w) params_and_args)
  end.

(** The loop that ends [__call__]. *)
Fixpoint check_no_new_param (names : list string) (captured : list string) : Py unit :=
  match captured with
  | [] => mret tt
  | name :: rest =>
      if bool_decide (name ∈ names) then check_no_new_param names rest
      else raise (NotImplementedError (new_param_msg name))
  end.

Definition first_time (argc : nat) (args : Args) (kwargs : Kwargs) : Py (list Value) :=
  first_param_capture ← call_fn Capture args kwargs;
  set_self (λ s, {| compiled := compiled s; ignore_warnings := ignore_warnings s;
                    _param_names := Some (list_of_set (dict_keys first_param_capture.1)) |});;
  names ← the_param_names;
  unconstrained_params ← for_list param_unconstrained names;
  let params_and_args := unconstrained_params ++ args in
  artifact ← torch_jit_trace kwargs params_and_args;
  set_self (λ s, {| compiled := <[argc := artifact]> (compiled s);
                    ignore_warnings := ignore_warnings s;
                    _param_names := _param_names s |});;
  mret params_and_args.

Definition already_compiled (args : Args) : Py (list Value) :=
  names ← the_param_names;
  unconstrained_params ← for_list param_unconstrained names;
  mret (unconstrained_params ++ args).

Definition __call__ (args : Args) (kwargs : Kwargs) : Py Value :=
  let argc := length args in
  w ← get;
  params_and_args ←
    (if bool_decide (compiled (self w) !! argc = None)
     then first_time argc args kwargs
     else already_compiled args);
  r ← call_artifact argc params_and_args;
  let '(param_capture, ret) := r in
  names ← the_param_names;
  check_no_new_param names (dict_keys param_capture);;
  mret ret.

End Wrapper.

(** *** Vocabulary of the properties *)

Abbreviation Fn := (Phase → ParamStore → Args → Kwargs → Run).

(** The unconstrained values of the parameters [names], read from the
    store one after the other. *)
Fixpoint fetch (store : ParamStore) (names : list string) : result (list Value) :=
  match names with
  | [] => Ret []
  | name :: rest =>
      match store !! name with
      | None => Raise (KeyError name)
      | Some v =>
          match fetch store rest with
          | Ret vs => Ret (v :: vs)
          | Raise e => Raise e
          end
      end
  end.

(** The first captured name that is not among [names]. *)
Fixpoint first_new (names captured : list string) : option string :=
  match captured with
  | [] => None
  | name :: rest => if bool_decide (name ∈ names) then first_new names rest else Some name
  end.

(** How a call ends once its artifact has run. *)
Definition call_result (names : list string) (run : Run) : result Value :=
  match returned run with
  | Ret v =>
      match first_new names (dict_keys (param_sites run)) with
      | None => Ret v
      | Some name => Raise (NotImplementedError (new_param_msg name))
      end
  | Raise e => Raise e
  end.

(** The world with one more event. *)
Definition logged (ev : event) (w : World) : World :=
  {| self := self w; param_store := param_store w; events := events w ++ [ev] |}.

(** The world after a run of the wrapped function. *)
Definition after_fn (fn : Fn) (phase : Phase) (args : Args) (kwargs : Kwargs)
    (w : World) : World :=
  {| self := self w;
     param_store := store_after (fn phase (param_store w) args kwargs);
     events := events w ++ [FnCall phase args kwargs] |}.

(** The run of an artifact of the cache on some inputs, and the world
    after it. *)
Definition run_of (backend : Backend) (artifact : Artifact)
    (inputs : list Value) (w : World) : Run :=
  artifact_run backend artifact (self w) (param_store w) inputs.

Definition after_artifact (backend : Backend) (argc : nat) (artifact : Artifact)
    (inputs : list Value) (w : World) : World :=
  {| self := self w;
     param_store := store_after (run_of backend artifact inputs w);
     events := events w ++ [ArtifactCall argc inputs] |}.

Definition with_names (names : list string) (w : World) : World :=
  {| self := {| compiled := compiled (self w);
                ignore_warnings := ignore_warnings (self w);
                _param_names := Some names |};
     param_store := param_store w; events := events w |}.

Definition with_artifact (argc : nat) (artifact : Artifact) (w : World) : World :=
  {| self := {| compiled := <[argc := artifact]> (compiled (self w));
                ignore_warnings := ignore_warnings (self w);
                _param_names := _param_names (self w) |};
     param_store := param_store w; events := events w |}.

(** The end of every call that gets that far: the artifact is called
    on the inputs, and the names it went through are checked. *)
Definition invoke (backend : Backend) (argc : nat) (artifact : Artifact)
    (names : list string) (inputs : list Value) (w : World) : World * result Value :=
  (after_artifact backend argc artifact inputs w,
   call_result names (run_of backend artifact inputs w)).

(** What the backend does with the closure before it returns the
    artifact: the world it leaves, and the exception if there is one. *)
Definition traced (fn : Fn) (backend : Backend) (args : Args) (kwargs : Kwargs)
    (inputs : list Value) (w : World) : World * option exn :=
  match rejects backend inputs with
  | Some e => (w, Some e)
  | None =>
      if traces backend then
        (after_fn fn Compile args kwargs w,
         match returned (fn Compile (param_store w) args kwargs) with
         | Raise e => Some e
         | Ret v => trace_failure backend kwargs inputs v
         end)
      else (w, None)
  end.

(** The first call with a count, stage after stage: the capture, the
    parameters read from the store, the compilation, the artifact. *)
Definition first_call (fn : Fn) (backend : Backend)
    (args : Args) (kwargs : Kwargs) (w : World) : World * result Value :=
  let capture := fn Capture (param_store w) args kwargs in
  let w1 := after_fn fn Capture args kwargs w in
  match returned capture with
  | Raise e => (w1, Raise e)
  | Ret _ =>
      let names := list_of_set (dict_keys (param_sites capture)) in
      let w2 := with_names names w1 in
      match fetch (param_store w2) names with
      | Raise e => (w2, Raise e)
      | Ret vs =>
          let params_and_args := vs ++ args in
          let w3 := logged (BackendCompile params_and_args) w2 in
          match traced fn backend args kwargs params_and_args w3 with
          | (w4, Some e) => (w4, Raise e)
          | (w4, None) =>
              let artifact := {| closure_kwargs := kwargs;
                                 example_inputs := params_and_args |} in
              invoke backend (length args) artifact names params_and_args
                (with_artifact (length args) artifact w4)
          end
      end
  end.

(** The world after a sequence of calls, whatever they return. *)
Definition run_calls (fn : Fn) (backend : Backend)
    (calls : list (Args * Kwargs)) (w : World) : World :=
  foldl (λ w call, (__call__ fn backend call.1 call.2 w).1) w calls.

(** How often the backend has been asked to compile. *)
Definition is_compile (ev : event) : bool :=
  match ev with BackendCompile _ => true | _ => false end.
Definition compilations (l : list event) : nat :=
  length (filter (λ ev, is_compile ev = true) l).

(** Every call of the sequence returns. *)
Fixpoint all_return (fn : Fn) (backend : Backend)
    (calls : list (Args * Kwargs)) (w : World) : Prop :=
  match calls with
  | [] => True
  | call :: rest =>
      is_Ret (__call__ fn backend call.1 call.2 w).2
      ∧ all_return fn backend rest (__call__ fn backend call.1 call.2 w).1
  end.

(** The numbers of positional arguments of the calls of a sequence. *)
Definition counts (calls : list (Args * Kwargs)) : gset nat :=
  list_to_set (map (λ call : Args * Kwargs, length call.1) calls).

(** *** Two backends *)

(** A backend that traces. It runs the closure once and records a graph
    with as many inputs as the example has. A call of the graph runs no
    Python: it goes through no parameter site and leaves the store as it
    is; on another number of inputs it fails with a [RuntimeError]. The
    graphs here are those of functions that add up what they are given:
    the inputs and the keyword arguments of the closure. *)
Definition graph_run (artifact : Artifact) (wrapper : CompiledFunction)
    (store : ParamStore) (inputs : list Value) : Run :=
  {| param_sites := [];
     store_after := store;
     returned :=
       if bool_decide (length inputs = length (example_inputs artifact))
       then Ret (foldr Z.add 0%Z inputs + foldr Z.add 0%Z (closure_kwargs artifact).*2)%Z
       else Raise (OtherError "RuntimeError") |}.

Definition tracing_backend : Backend :=
  {| rejects := λ _, None; traces := true; trace_failure := λ _ _ _, None;
     artifact_run := graph_run |}.

(** The backend with the JIT switched off: [torch.jit.trace] does not
    run the closure and returns it as the artifact, so that a call of the
    artifact is a run of the closure, which reads the list of names of
    the wrapper as it is then. *)
Definition closure_run (fn : Fn) (artifact : Artifact) (wrapper : CompiledFunction)
    (store : ParamStore) (inputs : list Value) : Run :=
  let r := compiled_closure fn Invoke (closure_kwargs artifact) inputs
             {| self := wrapper; param_store := store; events := [] |} in
  {| param_sites := match r.2 with Ret x => x.1 | Raise _ => [] end;
     store_after := param_store r.1;
     returned := match r.2 with Ret x => Ret x.2 | Raise e => Raise e end |}.

Definition closure_backend (fn : Fn) : Backend :=
  {| rejects := λ _, None; traces := false; trace_failure := λ _ _ _, None;
     artifact_run := closure_run fn |}.

(** *** Wrapped functions and a world, for the examples *)

(** [pyro.param(name, init)]: the parameter is initialized if the store
    does not have it. *)
Definition register (name : string) (init : Value) (store : ParamStore) : ParamStore :=
  match store !! name with
  | Some _ => store
  | None => <[name := init]> store
  end.

(** The function has the parameter [scale]; it has the parameter [loc]
    as well when it gets three positional arguments or a negative first
    argument. It returns the sum of its parameters and arguments. *)
Definition example_fn (phase : Phase) (store : ParamStore)
    (args : Args) (kwargs : Kwargs) : Run :=
  let with_loc :=
    bool_decide (length args = 3%nat)
    || match args with x :: _ => bool_decide (x < 0)%Z | [] => false end in
  let store1 := register "scale" 5%Z store in
  let store2 := if with_loc then register "loc" 7%Z store1 else store1 in
  {| param_sites := "scale" :: (if with_loc then ["loc"] else []);
     store_after := store2;
     returned := Ret (default 0%Z (store2 !! "scale")
                      + (if with_loc then default 0%Z (store2 !! "loc") else 0)
                      + foldr Z.add 0%Z args + foldr Z.add 0%Z kwargs.*2)%Z |}.

(** A function that fails now and then. It has the parameter [scale].
    Under the capture it raises when it gets no argument; under the
    tracing of the backend it raises when its first argument is negative;
    otherwise it returns the sum of its parameter and arguments. *)
Definition fragile_fn (phase : Phase) (store : ParamStore)
    (args : Args) (kwargs : Kwargs) : Run :=
  let store1 := register "scale" 5%Z store in
  {| param_sites := ["scale"];
     store_after := store1;
     returned :=
       match phase, args with
       | Capture, [] => Raise TypeError
       | Compile, x :: _ =>
           if bool_decide (x < 0)%Z then Raise (OtherError "TracingError")
           else Ret (default 0%Z (store1 !! "scale") + foldr Z.add 0%Z args)%Z
       | _, _ => Ret (default 0%Z (store1 !! "scale") + foldr Z.add 0%Z args)%Z
       end |}.

(** A new wrapper and an empty parameter store. *)
Definition new_world : World :=
  {| self := __init__ false; param_store := ∅; events := [] |}.

End Jit.

(** * Properties of the mean-field ELBO estimator *)

Module MeanFieldSpec.
Import MeanField.
Local Open Scope py_scope.

(** ** The monad *)

Lemma bind_ret {A B} (a : A) (k : A → M B) : bind (ret a) k = k a.
Proof. unfold bind, ret. by destruct (k a). Qed.

Lemma bind_raise {A B} (e : exn) (k : A → M B) : bind (raise e) k = raise e.
Proof. done. Qed.

Lemma bind_pure {A B} (r : result A) (k : A → M B) :
  bind ([], r) k = match r with Ret a => k a | Raise e => ([], Raise e) end.
Proof. destruct r as [a|e]; [apply bind_ret | done]. Qed.

Lemma outcome_bind {A B} (m : M A) (k : A → M B) :
  outcome (bind m k)
  = match outcome m with Ret a => outcome (k a) | Raise e => Raise e end.
Proof.
  destruct m as [log [a|e]]; simpl; [|done].
  unfold outcome. by destruct (k a).
Qed.

Lemma log_of_bind {A B} (m : M A) (k : A → M B) :
  log_of (bind m k)
  = match outcome m with
    | Ret a => log_of m ++ log_of (k a)
    | Raise _ => log_of m
    end.
Proof.
  destruct m as [log [a|e]]; simpl; [|done].
  unfold log_of. by destruct (k a).
Qed.

Lemma for_each_cons {S A} (body : S → A → M S) x l s :
  for_each body (x :: l) s = bind (body s x) (for_each body l).
Proof. done. Qed.

(** A loop whose body raises at one of the elements, whatever the state
    it is entered with, raises. *)
Lemma for_each_raises {S A} (body : S → A → M S) (l : list A) (x : A) :
  x ∈ l →
  (∀ s, is_Raise (outcome (body s x))) →
  ∀ s, is_Raise (outcome (for_each body l s)).
Proof.
  intros Hin Hraise. induction l as [|y l IH]; intros s.
  - by apply not_elem_of_nil in Hin.
  - rewrite for_each_cons, outcome_bind.
    apply elem_of_cons in Hin as [<-|Hin].
    + specialize (Hraise s). by destruct (outcome (body s x)).
    + destruct (outcome (body s y)); [by apply IH | done].
Qed.

(** What holds of every event of every run of the body holds of every
    event of the loop. *)
Lemma for_each_log {S A} (P : event → Prop) (body : S → A → M S) (l : list A) :
  (∀ s x, x ∈ l → Forall P (log_of (body s x))) →
  ∀ s, Forall P (log_of (for_each body l s)).
Proof.
  induction l as [|y l IH]; intros Hbody s.
  - constructor.
  - rewrite for_each_cons, log_of_bind.
    assert (Forall P (log_of (body s y))) as Hy by (apply Hbody; left).
    destruct (outcome (body s y)); [|done].
    apply Forall_app; split; [done|].
    apply IH. intros s' x Hx. apply Hbody. by right.
Qed.

(** A loop whose body neither logs nor raises is a fold. *)
Lemma for_each_pure {S A} (body : S → A → M S) (f : S → A → S) (l : list A) :
  (∀ s x, x ∈ l → body s x = ret (f s x)) →
  ∀ s, for_each body l s = ret (foldl f s l).
Proof.
  induction l as [|y l IH]; intros Hbody s; [done|].
  rewrite for_each_cons, Hbody, bind_ret by left.
  apply IH. intros s' x Hx. apply Hbody. by right.
Qed.

Section Properties.

Context (validation : bool) (is_zero : term → bool)
  (scale_mask : tensor → Q → option (list bool) → tensor)
  (kl : Dist → Dist → result tensor).

Abbreviation model_step := (model_site_step validation is_zero scale_mask kl).
Abbreviation guide_step := (guide_site_step validation is_zero).
Abbreviation particle_elbo := (elbo_of_particle validation is_zero scale_mask kl).
Abbreviation particle_loss := (_differentiable_loss_particle validation is_zero scale_mask kl).
Abbreviation the_loss := (loss validation is_zero scale_mask kl).

(** ** Observed sites *)

(** An observed sample site adds its [log_prob_sum] to the ELBO of the
    particle, and does nothing else. *)
Lemma observed_site_step guide_trace elbo name site :
  type site = "sample" → is_observed site = true →
  model_step guide_trace elbo (name, site) = ret (elbo + log_prob_sum site)%Q.
Proof.
  intros Htype Hobs. unfold model_site_step.
  rewrite decide_True by done. by rewrite Hobs.
Qed.

(** A site that is not a sample site leaves the ELBO as it is. *)
Lemma other_site_model_step guide_trace elbo name site :
  type site ≠ "sample" → model_step guide_trace elbo (name, site) = ret elbo.
Proof. intros Htype. unfold model_site_step. by rewrite decide_False. Qed.

Lemma other_site_guide_step model_trace elbo name site :
  type site ≠ "sample" → guide_step model_trace elbo (name, site) = ret elbo.
Proof.
  intros Htype. unfold guide_site_step. by rewrite bool_decide_eq_false_2.
Qed.

Lemma elbo_all_observed model_trace guide_trace :
  all_observed model_trace → no_sample_site guide_trace →
  particle_elbo model_trace guide_trace = ret (total_log_prob model_trace).
Proof.
  intros Hm Hg. unfold elbo_of_particle.
  rewrite (for_each_pure _ (λ acc entry,
             if decide (type entry.2 = "sample")
             then acc + log_prob_sum entry.2 else acc)%Q).
  - rewrite bind_ret.
    rewrite (for_each_pure _ (λ acc _, acc)).
    + f_equal. fold (total_log_prob model_trace).
      generalize (total_log_prob model_trace). clear.
      induction guide_trace; simpl; auto.
    + intros s [n site] Hin. apply other_site_guide_step.
      by apply (proj1 (Forall_forall _ _) Hg (n, site)).
  - intros s [n site] Hin. cbv beta. change ((n, site).2) with site.
    pose proof (proj1 (Forall_forall _ _) Hm (n, site) Hin) as Hobs.
    destruct (decide (type site = "sample")) as [Hs|Hs].
    + apply observed_site_step; auto.
    + by apply other_site_model_step.
Qed.

(** ** The loss *)

Lemma particle_loss_outcome model_trace guide_trace :
  outcome (particle_loss model_trace guide_trace)
  = match outcome (particle_elbo model_trace guide_trace) with
    | Ret elbo => Ret (- elbo, - elbo)%Q
    | Raise e => Raise e
    end.
Proof. unfold _differentiable_loss_particle. by rewrite outcome_bind. Qed.

Lemma loss_loop_average (num_particles : Z) traces elbos :
  num_particles ≠ 0%Z →
  Forall2 (λ pair elbo, outcome (particle_elbo pair.1 pair.2) = Ret elbo) traces elbos →
  ∀ acc, ∃ v,
    outcome (for_each (loss_step validation is_zero scale_mask kl num_particles) traces acc) = Ret v
    ∧ (v == acc - sum_Q elbos / inject_Z num_particles)%Q.
Proof.
  intros HN Hall.
  assert (¬ (inject_Z num_particles == 0)%Q) as HNQ.
  { unfold Qeq. simpl. lia. }
  induction Hall as [|[m g] elbo traces elbos Helbo _ IH]; intros acc.
  - exists acc. split; [done|]. simpl. field. done.
  - rewrite for_each_cons, outcome_bind.
    unfold loss_step at 1. rewrite outcome_bind, particle_loss_outcome.
    simpl in Helbo. rewrite Helbo. rewrite decide_False by done. simpl.
    destruct (IH (acc + - elbo / inject_Z num_particles)%Q) as (v & Hv & Heq).
    exists v. split; [done|]. rewrite Heq. simpl. field. done.
Qed.

(** When every particle has an ELBO, [loss] returns the average of the
    ELBOs of the particles, not its negative: the first component of
    [_differentiable_loss_particle] is already the negated ELBO, and
    [loss] negates the sum once more. *)
Lemma loss_is_average_elbo (num_particles : Z) traces elbos :
  num_particles ≠ 0%Z →
  Forall2 (λ pair elbo, outcome (particle_elbo pair.1 pair.2) = Ret elbo) traces elbos →
  ∃ v, outcome (the_loss num_particles traces) = Ret v
       ∧ (v == sum_Q elbos / inject_Z num_particles)%Q.
Proof.
  intros HN Hall. unfold loss. rewrite outcome_bind.
  destruct (loss_loop_average _ _ _ HN Hall 0%Q) as (v & -> & Heq).
  eexists. split; [done|]. rewrite Heq.
  assert (¬ (inject_Z num_particles == 0)%Q) as HNQ.
  { unfold Qeq. simpl. lia. }
  field. done.
Qed.

(** With observed sites only and no sample site in the guide, [loss]
    returns the average total observed log-density, with its own sign. *)
Lemma loss_all_observed (num_particles : Z) traces :
  num_particles ≠ 0%Z →
  Forall (λ pair : Trace * Trace, all_observed pair.1 ∧ no_sample_site pair.2) traces →
  ∃ v, outcome (the_loss num_particles traces) = Ret v
       ∧ (v == sum_Q (map (λ pair, total_log_prob pair.1) traces)
               / inject_Z num_particles)%Q.
Proof.
  intros HN Hall. apply loss_is_average_elbo; [done|].
  induction Hall as [|[m g] traces [Hm Hg] _ IH]; constructor; [|done].
  simpl. by rewrite elbo_all_observed.
Qed.

(** ** Latent sites *)

Lemma check_passes_ret guide_site :
  check_passes validation is_zero guide_site →
  (if validation then _check_fully_reparametrized is_zero guide_site else ret tt) = ret tt.
Proof.
  intros [->| Hrep]; [done|].
  unfold _check_fully_reparametrized. rewrite Hrep. by destruct validation.
Qed.

Lemma check_fails_raise guide_site :
  validation = true → fully_rep is_zero guide_site = false →
  (if validation then _check_fully_reparametrized is_zero guide_site else ret tt)
  = raise (NotImplementedError not_reparameterized_msg).
Proof. intros -> Hrep. unfold _check_fully_reparametrized. by rewrite Hrep. Qed.

(** The step of a latent site, once the guide site is found. *)
Lemma latent_site_step guide_trace elbo name model_site guide_site :
  type model_site = "sample" → is_observed model_site = false →
  getitem name guide_trace = Ret guide_site →
  model_step guide_trace elbo (name, model_site)
  = ((if validation then _check_fully_reparametrized is_zero guide_site else ret tt) ;;
     try_except_NotImplementedError
       (kl_qp <- call_kl_divergence kl name (fn guide_site) (fn model_site) ;;
        let kl_qp := scale_mask kl_qp (scale guide_site) (mask guide_site) in
        assert (bool_decide (shape kl_qp = batch_shape (fn guide_site))) ;;
        ret (elbo - tsum kl_qp)%Q)
       (entropy_sum <- ([], term_sum (entropy_term (score_parts guide_site))) ;;
        ret (elbo + log_prob_sum model_site - entropy_sum)%Q)).
Proof.
  intros Htype Hobs Hget. unfold model_site_step.
  rewrite decide_True by done. rewrite Hobs, Hget. by rewrite bind_pure.
Qed.

(** The log of a step of the loop over the model: empty, or the one call
    to the KL collaborator that the site makes. *)
Lemma model_step_log guide_trace elbo name site :
  log_of (model_step guide_trace elbo (name, site)) = []
  ∨ ∃ q p, log_of (model_step guide_trace elbo (name, site)) = [KLAttempt name q p].
Proof.
  unfold model_site_step, _check_fully_reparametrized, call_kl_divergence.
  destruct (decide (type site = "sample")); [|by left].
  destruct (is_observed site); [by left|].
  destruct (getitem name guide_trace) as [guide_site|]; [|by left].
  rewrite bind_pure.
  destruct validation; [destruct (negb (fully_rep is_zero guide_site)); [by left|]|];
    rewrite bind_ret; right; exists (fn guide_site), (fn site); simpl;
    (destruct (kl (fn guide_site) (fn site)) as [t|[]]; simpl;
     [destruct (bool_decide _); simpl; done | try done ..];
     by destruct (term_sum _)).
Qed.

Lemma guide_step_log model_trace elbo entry :
  log_of (guide_step model_trace elbo entry) = [].
Proof.
  destruct entry as [name site].
  unfold guide_site_step, _check_fully_reparametrized.
  destruct (_ && _); [|done].
  destruct (get_hint _ _); [|done]. rewrite bind_ret.
  destruct validation; [destruct (negb _); [done|]|];
    rewrite bind_ret; by destruct (term_sum _).
Qed.

(** What holds of every event of the steps over the model trace holds of
    every event of the particle. *)
Lemma particle_log (P : event → Prop) model_trace guide_trace :
  (∀ elbo entry, entry ∈ model_trace →
     Forall P (log_of (model_step guide_trace elbo entry))) →
  Forall P (log_of (particle_loss model_trace guide_trace)).
Proof.
  intros Hmodel. unfold _differentiable_loss_particle, elbo_of_particle.
  rewrite log_of_bind.
  assert (Forall P (log_of (elbo_particle <- for_each (model_step guide_trace) model_trace 0%Q ;;
                            for_each (guide_step model_trace) guide_trace elbo_particle))) as H.
  { rewrite log_of_bind.
    assert (Forall P (log_of (for_each (model_step guide_trace) model_trace 0%Q))) as H1
      by by apply for_each_log.
    destruct (outcome _); [|done].
    apply Forall_app; split; [done|].
    apply for_each_log. intros s x _. rewrite guide_step_log. constructor. }
  destruct (outcome _); [|done].
  apply Forall_app; split; [done | constructor].
Qed.

(** The particle raises as soon as one step over the model trace does. *)
Lemma particle_raises_model model_trace guide_trace entry :
  entry ∈ model_trace →
  (∀ elbo, is_Raise (outcome (model_step guide_trace elbo entry))) →
  is_Raise (outcome (particle_loss model_trace guide_trace)).
Proof.
  intros Hin Hraise. rewrite particle_loss_outcome.
  unfold elbo_of_particle. rewrite outcome_bind.
  pose proof (for_each_raises _ _ _ Hin Hraise 0%Q) as H.
  by destruct (outcome (for_each _ model_trace _)).
Qed.

(** The particle raises as soon as one step over the guide trace does. *)
Lemma particle_raises_guide model_trace guide_trace entry :
  entry ∈ guide_trace →
  (∀ elbo, is_Raise (outcome (guide_step model_trace elbo entry))) →
  is_Raise (outcome (particle_loss model_trace guide_trace)).
Proof.
  intros Hin Hraise. rewrite particle_loss_outcome.
  unfold elbo_of_particle. rewrite outcome_bind.
  destruct (outcome (for_each _ model_trace _)) as [elbo|]; [|done].
  pose proof (for_each_raises _ _ _ Hin Hraise elbo) as H.
  by destruct (outcome (for_each _ guide_trace _)).
Qed.

(** The step of a sample site that only the guide has. *)
Lemma guide_only_site_step model_trace elbo name guide_site :
  type guide_site = "sample" → contains name model_trace = false →
  guide_step model_trace elbo (name, guide_site)
  = (assert (get_hint "is_auxiliary" (infer guide_site)) ;;
     (if validation then _check_fully_reparametrized is_zero guide_site else ret tt) ;;
     entropy_sum <- ([], term_sum (entropy_term (score_parts guide_site))) ;;
     ret (elbo - entropy_sum)%Q).
Proof.
  intros Htype Hname. unfold guide_site_step.
  by rewrite bool_decide_eq_true_2, Hname by done.
Qed.

Lemma auxiliary_site_step model_trace elbo name guide_site t :
  type guide_site = "sample" → contains name model_trace = false →
  get_hint "is_auxiliary" (infer guide_site) = true →
  check_passes validation is_zero guide_site →
  entropy_term (score_parts guide_site) = Tensor t →
  guide_step model_trace elbo (name, guide_site) = ([], Ret (elbo - tsum t)%Q).
Proof.
  intros Htype Hname Haux Hcheck Ht.
  rewrite guide_only_site_step, Haux, bind_ret by done.
  by rewrite check_passes_ret, bind_ret, Ht.
Qed.

(** ** The claims on the estimator *)

(** C3, as amended. At a latent sample site of the model whose guide
    site passes the reparameterization check (or when validation is
    off), the KL collaborator is called once. If it raises
    [NotImplementedError] and the entropy term of the guide site is a
    tensor, the step returns the ELBO plus the model's [log_prob_sum]
    minus the sum of the entropy term: nothing is raised. If it returns
    a value, the value is scaled and masked with the scale and the mask
    of the guide site; when its shape is the batch shape of the guide
    distribution its sum is subtracted from the ELBO, and otherwise the
    assertion fails. *)
Theorem C3_latent_site_kl_or_fallback guide_trace elbo name model_site guide_site :
  type model_site = "sample" → is_observed model_site = false →
  getitem name guide_trace = Ret guide_site →
  check_passes validation is_zero guide_site →
  let attempt := KLAttempt name (fn guide_site) (fn model_site) in
  let step := model_step guide_trace elbo (name, model_site) in
  let scaled t := scale_mask t (scale guide_site) (mask guide_site) in
  (∀ msg t, kl (fn guide_site) (fn model_site) = Raise (NotImplementedError msg) →
     entropy_term (score_parts guide_site) = Tensor t →
     step = ([attempt], Ret (elbo + log_prob_sum model_site - tsum t)%Q))
  ∧ (∀ t, kl (fn guide_site) (fn model_site) = Ret t →
       shape (scaled t) = batch_shape (fn guide_site) →
       step = ([attempt], Ret (elbo - tsum (scaled t))%Q))
  ∧ (∀ t, kl (fn guide_site) (fn model_site) = Ret t →
       shape (scaled t) ≠ batch_shape (fn guide_site) →
       step = ([attempt], Raise AssertionError)).
Proof.
  intros Htype Hobs Hget Hcheck attempt step scaled. subst step.
  rewrite (latent_site_step _ _ _ _ _ Htype Hobs Hget).
  rewrite (check_passes_ret _ Hcheck), bind_ret.
  unfold call_kl_divergence. repeat split.
  - intros msg t -> ->. done.
  - intros t -> Hshape. simpl. fold (scaled t).
    by rewrite bool_decide_eq_true_2.
  - intros t -> Hshape. simpl. fold (scaled t).
    by rewrite bool_decide_eq_false_2.
Qed.

(** C4. With validation enabled, a latent sample site of the model whose
    guide site is not fully reparameterized makes its step raise
    [NotImplementedError] with an empty log and no new value of the
    ELBO, whatever the KL collaborator would answer; the particle as a
    whole raises, and its log has no call to the KL collaborator for
    that site. *)
Theorem C4_not_reparameterized_raises_first
    model_trace guide_trace name model_site guide_site :
  validation = true →
  (name, model_site) ∈ model_trace →
  type model_site = "sample" → is_observed model_site = false →
  getitem name guide_trace = Ret guide_site →
  (has_rsample (fn guide_site) = false
   ∨ is_zero (score_function (score_parts guide_site)) = false
   ∨ is_zero (entropy_term (score_parts guide_site)) = true) →
  (∀ elbo, model_step guide_trace elbo (name, model_site)
           = ([], Raise (NotImplementedError not_reparameterized_msg)))
  ∧ is_Raise (outcome (particle_loss model_trace guide_trace))
  ∧ Forall (not_kl_of name) (log_of (particle_loss model_trace guide_trace)).
Proof.
  intros Hval Hin Htype Hobs Hget Hnot.
  assert (fully_rep is_zero guide_site = false) as Hrep.
  { unfold fully_rep.
    destruct Hnot as [-> | [-> | ->]]; [done | | ];
      rewrite ?andb_false_r; simpl; by rewrite ?andb_false_r. }
  assert (∀ m elbo, type m = "sample" → is_observed m = false →
            model_step guide_trace elbo (name, m)
            = ([], Raise (NotImplementedError not_reparameterized_msg))) as Hstep.
  { intros m elbo Hm1 Hm2.
    rewrite (latent_site_step _ _ _ _ _ Hm1 Hm2 Hget).
    by rewrite (check_fails_raise _ Hval Hrep). }
  split; [by auto|]. split.
  - apply (particle_raises_model _ _ _ Hin). intros elbo. by rewrite Hstep.
  - apply particle_log. intros elbo [n site] _.
    destruct (decide (n = name)) as [->|Hne].
    + destruct (decide (type site = "sample")) as [Hs|Hs];
        [|rewrite other_site_model_step by done; constructor].
      destruct (is_observed site) eqn:Ho.
      * rewrite observed_site_step by done. constructor.
      * rewrite Hstep by done. constructor.
    + destruct (model_step_log guide_trace elbo n site) as [-> | (q & p & ->)];
        repeat constructor. done.
Qed.

(** C5, as amended. At a sample site of the guide that the model does
    not have: the step fails on its assertion when the inference hints
    do not mark the site as auxiliary; it raises [NotImplementedError]
    when validation is enabled and the site is not fully
    reparameterized; in both cases the particle raises. When the site is
    auxiliary and passes the check (or validation is off), and its
    entropy term is a tensor, the step subtracts the sum of the entropy
    term from the ELBO; for a guide with this single site and an empty
    model, the loss of the particle is the negated difference of zero and
    that sum, which is that sum. *)
Theorem C5_auxiliary_site model_trace guide_trace name guide_site :
  (name, guide_site) ∈ guide_trace →
  type guide_site = "sample" → contains name model_trace = false →
  let auxiliary := get_hint "is_auxiliary" (infer guide_site) in
  let step elbo := guide_step model_trace elbo (name, guide_site) in
  (auxiliary = false →
     (∀ elbo, step elbo = ([], Raise AssertionError))
     ∧ is_Raise (outcome (particle_loss model_trace guide_trace)))
  ∧ (auxiliary = true → validation = true → fully_rep is_zero guide_site = false →
     (∀ elbo, step elbo = ([], Raise (NotImplementedError not_reparameterized_msg)))
     ∧ is_Raise (outcome (particle_loss model_trace guide_trace)))
  ∧ (auxiliary = true → check_passes validation is_zero guide_site →
     ∀ t, entropy_term (score_parts guide_site) = Tensor t →
     (∀ elbo, step elbo = ([], Ret (elbo - tsum t)%Q))
     ∧ particle_loss [] [(name, guide_site)]
       = ([], Ret (- (0 - tsum t), - (0 - tsum t))%Q)
     ∧ (- (0 - tsum t) == tsum t)%Q).
Proof.
  intros Hin Htype Hname auxiliary step.
  assert (∀ elbo, step elbo
    = (assert auxiliary ;;
       (if validation then _check_fully_reparametrized is_zero guide_site else ret tt) ;;
       entropy_sum <- ([], term_sum (entropy_term (score_parts guide_site))) ;;
       ret (elbo - entropy_sum)%Q)) as Hstep
    by (intros elbo; by apply guide_only_site_step).
  split; [|split].
  - intros Haux. split.
    + intros elbo. by rewrite Hstep, Haux.
    + apply (particle_raises_guide _ _ _ Hin). intros elbo.
      fold (step elbo). by rewrite Hstep, Haux.
  - intros Haux Hval Hrep. split.
    + intros elbo. rewrite Hstep, Haux, bind_ret.
      by rewrite check_fails_raise.
    + apply (particle_raises_guide _ _ _ Hin). intros elbo.
      fold (step elbo). rewrite Hstep, Haux, bind_ret.
      by rewrite check_fails_raise.
  - intros Haux Hcheck t Ht. split; [|split].
    + intros elbo. by apply auxiliary_site_step.
    + unfold _differentiable_loss_particle, elbo_of_particle.
      change (for_each (model_step _) [] 0%Q) with (@ret Q 0%Q).
      rewrite bind_ret, for_each_cons.
      by rewrite (auxiliary_site_step [] 0%Q name guide_site t).
    + ring.
Qed.

(** C6, as amended. When the sample sites of the model that the guide
    has and the sample sites of the guide that the model has are the
    same names in a different order, the check logs one warning and
    raises nothing, and with validation enabled [_get_trace] returns the
    pair of traces it was given. *)
Theorem C6_ordering_mismatch_warns model_trace guide_trace :
  let model_sites := sample_sites_in model_trace guide_trace in
  let guide_sites := sample_sites_in guide_trace model_trace in
  list_to_set model_sites =@{gset string} list_to_set guide_sites →
  model_sites ≠ guide_sites →
  _check_mean_field_requirement model_trace guide_trace
  = ([Warning (mean_field_warning model_sites guide_sites)], Ret tt)
  ∧ _get_trace true (model_trace, guide_trace)
    = ([Warning (mean_field_warning model_sites guide_sites)],
       Ret (model_trace, guide_trace)).
Proof.
  intros model_sites guide_sites Hset Hneq.
  assert (_check_mean_field_requirement model_trace guide_trace
          = ([Warning (mean_field_warning model_sites guide_sites)], Ret tt)) as Hcheck.
  { unfold _check_mean_field_requirement.
    fold model_sites guide_sites.
    rewrite bool_decide_eq_true_2 by done. rewrite bind_ret.
    by rewrite bool_decide_eq_true_2. }
  split; [done|]. unfold _get_trace. by rewrite Hcheck.
Qed.

End Properties.

(** ** The claims at concrete traces *)

Abbreviation run_particle validation :=
  (_differentiable_loss_particle validation number_is_zero scale_and_mask_entries kl_normal_only).
Abbreviation run_model_step validation :=
  (model_site_step validation number_is_zero scale_and_mask_entries kl_normal_only).
Abbreviation run_loss validation :=
  (loss validation number_is_zero scale_and_mask_entries kl_normal_only).

(** C1. One particle, whose model has the single observed site [obs]
    with [log_prob_sum = -3] and whose guide is empty, and
    [num_particles = 1]: the ELBO of the particle is -3, so that the
    negative of the average ELBO is 3; [loss] returns -3. *)
Theorem C1_loss_returns_the_elbo_not_its_negative :
  let model_trace := [("obs", observed_site (Normal []) (-3))] in
  let guide_trace : Trace := [] in
  elbo_of_particle true number_is_zero scale_and_mask_entries kl_normal_only
    model_trace guide_trace = ([], Ret (-3)%Q)
  ∧ run_particle true model_trace guide_trace = ([], Ret (3, 3)%Q)
  ∧ run_loss true 1 [(model_trace, guide_trace)] = ([], Ret (-3)%Q)
  ∧ ¬ (-3 == - (-3 / inject_Z 1))%Q.
Proof. repeat split. intros H. vm_compute in H. discriminate. Qed.

(** C2. Two particles whose sample sites are all observed, with guides
    that have no sample site, the total observed log-densities being -3
    and -5, and [num_particles = 2]: the negative of the averaged total
    is 4; [loss] returns -4. *)
Theorem C2_loss_all_observed_has_the_wrong_sign :
  let first := [("scale", param_site); ("x", observed_site (Normal []) (-1));
                ("y", observed_site (Normal []) (-2))] in
  let second := [("scale", param_site); ("x", observed_site (Normal []) (-4));
                 ("y", observed_site (Normal []) (-1))] in
  let guide : Trace := [("scale", param_site)] in
  let traces : list (Trace * Trace) := [(first, guide); (second, guide)] in
  (all_observed first ∧ all_observed second ∧ no_sample_site guide)
  ∧ (total_log_prob first == -3)%Q ∧ (total_log_prob second == -5)%Q
  ∧ ∃ v, run_loss true 2 traces = ([], Ret v)
         ∧ (v == -4)%Q
         ∧ ¬ (v == - ((-3 + -5) / inject_Z 2))%Q.
Proof.
  split; [|split; [|split]].
  - unfold all_observed, no_sample_site. repeat split; repeat constructor; done.
  - reflexivity.
  - reflexivity.
  - eexists. repeat split. intros H. vm_compute in H. discriminate.
Qed.

(** C3, the claim as stated fails. The KL of two normal distributions
    is defined, and yet nothing is subtracted when the model
    distribution has a batch shape that the guide distribution has not:
    the assertion on the shape fails. And with validation off and a
    guide site whose entropy term is the number zero, the fallback does
    not produce an ELBO either. *)
Lemma C3_counterexample :
  (let guide_trace := [("z", latent_site (Normal []) (reparameterized_parts (-1)) (-1))] in
   let model_site := latent_site (Normal [2]) (reparameterized_parts (-2)) (-2) in
   is_Ret (kl_normal_only (Normal []) (Normal [2]))
   ∧ run_model_step true guide_trace 0%Q ("z", model_site)
     = ([KLAttempt "z" (Normal []) (Normal [2])], Raise AssertionError))
  ∧ (let guide_trace := [("z", latent_site (Bernoulli []) (score_function_parts (-1)) (-1))] in
     let model_site := latent_site (Gamma []) (reparameterized_parts (-2)) (-2) in
     kl_normal_only (Bernoulli []) (Gamma []) = Raise (NotImplementedError "")
     ∧ run_model_step false guide_trace 0%Q ("z", model_site)
       = ([KLAttempt "z" (Bernoulli []) (Gamma [])], Raise (AttributeError "sum"))).
Proof. repeat split. Qed.

(** C3 at a normal guide site, against a gamma model site (no KL
    formula) and against a normal one. *)
Lemma C3_witness :
  (let guide_site := latent_site (Normal []) (reparameterized_parts (-1)) (-1) in
   let model_site := latent_site (Gamma []) (reparameterized_parts (-2)) (-2) in
   run_model_step true [("z", guide_site)] 0%Q ("z", model_site)
   = ([KLAttempt "z" (Normal []) (Gamma [])], Ret (0 + -2 - tsum (scalar (-1)))%Q))
  ∧ (let guide_site := latent_site (Normal []) (reparameterized_parts (-1)) (-1) in
     let model_site := latent_site (Normal []) (reparameterized_parts (-2)) (-2) in
     run_model_step true [("z", guide_site)] 0%Q ("z", model_site)
     = ([KLAttempt "z" (Normal []) (Normal [])],
        Ret (0 - tsum (scale_and_mask_entries (scalar (1 # 2)) 1 None))%Q)).
Proof.
  split.
  - intros guide_site model_site.
    apply (proj1 (C3_latent_site_kl_or_fallback true number_is_zero
             scale_and_mask_entries kl_normal_only [("z", guide_site)] 0%Q "z"
             model_site guide_site eq_refl eq_refl eq_refl (or_intror eq_refl))
           "" (scalar (-1))); reflexivity.
  - intros guide_site model_site.
    apply (proj1 (proj2 (C3_latent_site_kl_or_fallback true number_is_zero
             scale_and_mask_entries kl_normal_only [("z", guide_site)] 0%Q "z"
             model_site guide_site eq_refl eq_refl eq_refl (or_intror eq_refl)))
           (scalar (1 # 2))); reflexivity.
Defined.

(** C4 at a Bernoulli guide site, which has no [rsample]. *)
Lemma C4_witness :
  let guide_site := latent_site (Bernoulli []) (score_function_parts (-1)) (-1) in
  let model_site := latent_site (Gamma []) (reparameterized_parts (-2)) (-2) in
  let model_trace := [("x", observed_site (Normal []) (-3)); ("z", model_site)] in
  let guide_trace := [("z", guide_site)] in
  (∀ elbo, run_model_step true guide_trace elbo ("z", model_site)
           = ([], Raise (NotImplementedError not_reparameterized_msg)))
  ∧ is_Raise (outcome (run_particle true model_trace guide_trace))
  ∧ Forall (not_kl_of "z") (log_of (run_particle true model_trace guide_trace)).
Proof.
  intros guide_site model_site model_trace guide_trace.
  apply (C4_not_reparameterized_raises_first true number_is_zero
           scale_and_mask_entries kl_normal_only model_trace guide_trace "z"
           model_site guide_site eq_refl).
  - right. left.
  - reflexivity.
  - reflexivity.
  - reflexivity.
  - left. reflexivity.
Defined.

(** C5, the claim as stated fails. With validation off, an auxiliary
    site of the guide that is not fully reparameterized (a rejection
    sampler, whose score-function term is a tensor) raises nothing: its
    entropy term is subtracted. And the loss of the particle goes down,
    not up, when the sum of the entropy term is negative. *)
Lemma C5_counterexample :
  (let guide_site := auxiliary_site (Rejector []) (rejector_parts (-1) (-1)) (-1) in
   fully_rep number_is_zero guide_site = false
   ∧ run_particle false [] [("aux", guide_site)] = ([], Ret (-1, -1)%Q))
  ∧ (let guide_site := auxiliary_site (Normal []) (reparameterized_parts (-1)) (-1) in
     fully_rep number_is_zero guide_site = true
     ∧ run_particle true [] [] = ([], Ret (0, 0)%Q)
     ∧ run_particle true [] [("aux", guide_site)] = ([], Ret (-1, -1)%Q)).
Proof. repeat split. Qed.

(** C5 at an auxiliary site whose entropy term sums to 2, and at a
    guide-only site that is not marked as auxiliary. *)
Lemma C5_witness :
  (let guide_site := auxiliary_site (Normal []) (reparameterized_parts 2) 2 in
   (∀ elbo, guide_site_step true number_is_zero [] elbo ("aux", guide_site)
            = ([], Ret (elbo - tsum (scalar 2))%Q))
   ∧ run_particle true [] [("aux", guide_site)]
     = ([], Ret (- (0 - tsum (scalar 2)), - (0 - tsum (scalar 2)))%Q)
   ∧ (- (0 - tsum (scalar 2)) == tsum (scalar 2))%Q)
  ∧ (let guide_site := latent_site (Normal []) (reparameterized_parts 2) 2 in
     (∀ elbo, guide_site_step true number_is_zero [] elbo ("aux", guide_site)
              = ([], Raise AssertionError))
     ∧ is_Raise (outcome (run_particle true [] [("aux", guide_site)]))).
Proof.
  split.
  - intros guide_site.
    apply (proj2 (proj2 (C5_auxiliary_site true number_is_zero
             scale_and_mask_entries kl_normal_only [] [("aux", guide_site)] "aux"
             guide_site ltac:(left) eq_refl eq_refl))
           eq_refl (or_intror eq_refl) (scalar 2) eq_refl).
  - intros guide_site.
    apply (proj1 (C5_auxiliary_site true number_is_zero
             scale_and_mask_entries kl_normal_only [] [("aux", guide_site)] "aux"
             guide_site ltac:(left) eq_refl eq_refl)
           eq_refl).
Defined.

(** C6, the claim as stated fails. The names [a] and [b] are common to
    the two traces and come in opposite orders; [b] is a sample site of
    the model and a parameter of the guide, and the check fails on its
    assertion. The parameters [p] and [q] come in opposite orders too,
    around a sample site [z]: no warning is emitted. *)
Lemma C6_counterexample :
  (let site := latent_site (Normal []) (reparameterized_parts 0) 0 in
   let model_trace := [("a", site); ("b", site)] in
   let guide_trace := [("b", param_site); ("a", site)] in
   common_names model_trace guide_trace ≠ common_names guide_trace model_trace
   ∧ _check_mean_field_requirement model_trace guide_trace = ([], Raise AssertionError)
   ∧ _get_trace true (model_trace, guide_trace) = ([], Raise AssertionError))
  ∧ (let site := latent_site (Normal []) (reparameterized_parts 0) 0 in
     let model_trace := [("p", param_site); ("q", param_site); ("z", site)] in
     let guide_trace := [("q", param_site); ("p", param_site); ("z", site)] in
     common_names model_trace guide_trace ≠ common_names guide_trace model_trace
     ∧ _get_trace true (model_trace, guide_trace) = ([], Ret (model_trace, guide_trace))).
Proof. repeat split; vm_compute; congruence. Qed.

(** C6 at two sample sites that the traces have in opposite orders. *)
Lemma C6_witness :
  let site := latent_site (Normal []) (reparameterized_parts 0) 0 in
  let model_trace := [("a", site); ("b", site)] in
  let guide_trace := [("b", site); ("a", site)] in
  _check_mean_field_requirement model_trace guide_trace
  = ([Warning (mean_field_warning ["a"; "b"] ["b"; "a"])], Ret tt)
  ∧ _get_trace true (model_trace, guide_trace)
    = ([Warning (mean_field_warning ["a"; "b"] ["b"; "a"])],
       Ret (model_trace, guide_trace)).
Proof.
  intros site model_trace guide_trace.
  apply (C6_ordering_mismatch_warns model_trace guide_trace).
  - vm_compute. reflexivity.
  - vm_compute. congruence.
Defined.

End MeanFieldSpec.

(** * Properties of the jit wrapper *)

Module JitSpec.
Import Jit.

(** ** The monad *)

Lemma bind_eq {A B} (m : Py A) (k : A → Py B) (w : World) :
  (m ≫= k) w
  = match m w with
    | (w', Ret a) => k a w'
    | (w', Raise e) => (w', Raise e)
    end.
Proof. done. Qed.

(** ** Reading the store *)

Lemma for_list_fetch names w :
  for_list param_unconstrained names w = (w, fetch (param_store w) names).
Proof.
  induction names as [|name names IH]; [done|].
  simpl. rewrite bind_eq. unfold param_unconstrained at 1.
  rewrite bind_eq. simpl.
  destruct (param_store w !! name) as [v|]; [|done].
  simpl. rewrite bind_eq, IH.
  by destruct (fetch (param_store w) names).
Qed.

Lemma fetch_Forall2 store names vs :
  fetch store names = Ret vs →
  Forall2 (λ name v, store !! name = Some v) names vs.
Proof.
  revert vs. induction names as [|name names IH]; intros vs; simpl.
  - intros [= <-]. constructor.
  - destruct (store !! name) as [v|] eqn:Hv; [|done].
    destruct (fetch store names) as [vs'|]; [|done].
    intros [= <-]. constructor; auto.
Qed.

Lemma fetch_length store names vs :
  fetch store names = Ret vs → length names = length vs.
Proof. intros H. eapply Forall2_length, fetch_Forall2, H. Qed.

Section Properties.

Context (fn : Fn) (backend : Backend).

Lemma perform_eq (run : Run) w :
  perform run w
  = ({| self := self w; param_store := store_after run; events := events w |},
     match returned run with
     | Ret v => Ret (param_sites run, v)
     | Raise e => Raise e
     end).
Proof. unfold perform. rewrite bind_eq. simpl. by destruct (returned run). Qed.

Lemma call_fn_eq phase args kwargs w :
  call_fn fn phase args kwargs w
  = (after_fn fn phase args kwargs w,
     match returned (fn phase (param_store w) args kwargs) with
     | Ret v => Ret (param_sites (fn phase (param_store w) args kwargs), v)
     | Raise e => Raise e
     end).
Proof.
  unfold call_fn. rewrite bind_eq. simpl.
  rewrite bind_eq. simpl. by rewrite perform_eq.
Qed.

(** The loop of the closure goes through the names and leaves the world
    as it is, when it is given the values that the store has. *)
Lemma closure_loop names vs w :
  Forall2 (λ name v, param_store w !! name = Some v) names vs →
  for_list (λ '(name, unconstrained_param),
      constrained_param ← param_unconstrained name;
      assert (bool_decide (constrained_param = unconstrained_param));;
      mret name) (zip names vs) w
  = (w, Ret names).
Proof.
  induction 1 as [|name v names vs Hv _ IH]; [done|].
  simpl. rewrite bind_eq. rewrite bind_eq.
  unfold param_unconstrained at 1. rewrite bind_eq. simpl. rewrite Hv. simpl.
  rewrite bind_eq. rewrite bool_decide_eq_true_2 by done. simpl.
  rewrite bind_eq, IH. done.
Qed.

(** The closure splits its inputs at the length of the list of names
    that the wrapper has when it runs, and runs the function on what
    comes after the parameters. *)
Lemma compiled_closure_eq phase kwargs names vs args w :
  _param_names (self w) = Some names →
  fetch (param_store w) names = Ret vs →
  compiled_closure fn phase kwargs (vs ++ args) w
  = (after_fn fn phase args kwargs w,
     match returned (fn phase (param_store w) args kwargs) with
     | Ret v => Ret (names ++ param_sites (fn phase (param_store w) args kwargs), v)
     | Raise e => Raise e
     end).
Proof.
  intros Hnames Hvs.
  assert (length names = length vs) as Hlen by by eapply fetch_length.
  unfold compiled_closure, the_param_names.
  rewrite bind_eq, bind_eq. simpl. rewrite Hnames. simpl.
  rewrite bind_eq.
  rewrite Hlen, take_app_length, drop_app_length.
  rewrite (closure_loop _ _ _ (fetch_Forall2 _ _ _ Hvs)).
  rewrite bind_eq, call_fn_eq.
  by destruct (returned _).
Qed.

(** ** The last loop *)

Lemma check_no_new_param_eq names captured w :
  check_no_new_param names captured w
  = (w, match first_new names captured with
        | None => Ret tt
        | Some name => Raise (NotImplementedError (new_param_msg name))
        end).
Proof.
  induction captured as [|name rest IH]; [done|].
  simpl. by destruct (bool_decide (name ∈ names)).
Qed.

Lemma first_new_Some names captured name :
  first_new names captured = Some name → name ∈ captured ∧ name ∉ names.
Proof.
  induction captured as [|x rest IH]; simpl; [done|].
  case_bool_decide as Hx.
  - intros H. destruct (IH H). split; [by right | done].
  - intros [= <-]. split; [by left | done].
Qed.

Lemma first_new_None names captured :
  first_new names captured = None ↔ Forall (λ name, name ∈ names) captured.
Proof.
  induction captured as [|x rest IH]; simpl; [split; [constructor | done]|].
  case_bool_decide as Hx.
  - rewrite IH. split; [by constructor | by intros [_ ?]%Forall_cons].
  - split; [done | by intros [? _]%Forall_cons].
Qed.

Lemma elem_of_dict_keys_from seen l x :
  x ∈ dict_keys_from seen l ↔ x ∈ l ∧ x ∉ seen.
Proof.
  revert seen. induction l as [|y l IH]; intros seen; simpl.
  - split; [by intros ?%not_elem_of_nil | by intros [?%not_elem_of_nil _]].
  - case_bool_decide as Hy.
    + rewrite IH. split.
      * intros [? ?]. split; [by right | done].
      * intros [[->|?]%elem_of_cons ?]; [done | by split].
    + rewrite elem_of_cons, IH, not_elem_of_cons, elem_of_cons. split.
      * intros [-> | [? [? ?]]]; [split; [by left | done] | split; [by right | done]].
      * intros [[-> | ?] ?]; [by left|].
        destruct (decide (x = y)) as [->|]; [by left | right; by repeat split].
Qed.

Lemma elem_of_dict_keys l x : x ∈ dict_keys l ↔ x ∈ l.
Proof.
  unfold dict_keys. rewrite elem_of_dict_keys_from.
  split; [by intros [? _] | intros ?; split; [done | apply not_elem_of_nil]].
Qed.

(** How a call ends after the run of its artifact: with the value of
    the run when all the names are known, with [NotImplementedError] on a
    name that is not. *)
Lemma call_result_cases names run v :
  returned run = Ret v →
  (Forall (λ name, name ∈ names) (param_sites run) ∧ call_result names run = Ret v)
  ∨ (∃ name, name ∈ param_sites run ∧ (name ∉ names)
             ∧ call_result names run = Raise (NotImplementedError (new_param_msg name))).
Proof.
  intros Hv. unfold call_result. rewrite Hv.
  destruct (first_new names (dict_keys (param_sites run))) as [bad|] eqn:Hbad.
  - right. destruct (first_new_Some _ _ _ Hbad) as [Hin Hnot].
    exists bad. by rewrite <- (elem_of_dict_keys (param_sites run)).
  - left. split; [|done]. apply first_new_None in Hbad.
    apply Forall_forall. intros name Hin.
    apply (proj1 (Forall_forall _ _) Hbad). by apply elem_of_dict_keys.
Qed.

(** ** Counting compilations *)

Lemma compilations_snoc l ev :
  compilations (l ++ [ev]) = (compilations l + if is_compile ev then 1 else 0)%nat.
Proof.
  unfold compilations. rewrite filter_app, length_app. f_equal.
  destruct ev; done.
Qed.

(** ** A call with a count that is compiled *)

(** What follows the two branches of [__call__], in a world where the
    artifact is in the cache. *)
Lemma invoke_and_check_eq argc inputs artifact names w :
  compiled (self w) !! argc = Some artifact →
  _param_names (self w) = Some names →
  (r ← call_artifact backend argc inputs;
   let '(param_capture, ret) := r in
   names ← the_param_names;
   check_no_new_param names (dict_keys param_capture);;
   mret ret) w
  = invoke backend argc artifact names inputs w.
Proof.
  intros Hart Hnames.
  rewrite bind_eq. unfold call_artifact. rewrite bind_eq. simpl.
  rewrite Hart. rewrite bind_eq. simpl. rewrite perform_eq. simpl.
  unfold invoke, call_result, run_of, after_artifact. simpl.
  destruct (returned _) as [v|e]; [|done].
  rewrite bind_eq. unfold the_param_names. rewrite bind_eq. simpl.
  rewrite Hnames. simpl. rewrite bind_eq, check_no_new_param_eq.
  by destruct (first_new _ _).
Qed.

(** A call with a compiled count stops before the artifact, in the
    world it started in, when the wrapper has no list of names or a
    parameter of the list is not in the store; otherwise it calls the
    artifact on the parameters of the list followed by its own positional
    arguments. *)
Lemma call_compiled_eq args kwargs artifact w :
  compiled (self w) !! length args = Some artifact →
  __call__ fn backend args kwargs w
  = match _param_names (self w) with
    | None => (w, Raise TypeError)
    | Some names =>
        match fetch (param_store w) names with
        | Raise e => (w, Raise e)
        | Ret vs => invoke backend (length args) artifact names (vs ++ args) w
        end
    end.
Proof.
  intros Hart.
  unfold __call__. rewrite bind_eq. simpl.
  rewrite bool_decide_eq_false_2 by congruence.
  rewrite bind_eq. unfold already_compiled, the_param_names.
  rewrite !bind_eq. simpl.
  destruct (_param_names (self w)) as [names|] eqn:Hnames; [|done]. simpl.
  rewrite bind_eq, for_list_fetch.
  destruct (fetch (param_store w) names) as [vs|e] eqn:Hvs; [|done]. simpl.
  by apply invoke_and_check_eq.
Qed.

(** A call with a compiled count leaves the wrapper as it is and does
    not compile. *)
Lemma call_compiled_keeps args kwargs w :
  compiled (self w) !! length args ≠ None →
  self (__call__ fn backend args kwargs w).1 = self w
  ∧ compilations (events (__call__ fn backend args kwargs w).1) = compilations (events w).
Proof.
  intros Hart.
  destruct (compiled (self w) !! length args) as [artifact|] eqn:Ha; [|done].
  rewrite (call_compiled_eq _ _ _ _ Ha).
  destruct (_param_names (self w)) as [names|]; [|done].
  destruct (fetch (param_store w) names) as [vs|e]; [|done].
  simpl. split; [done|]. rewrite compilations_snoc. simpl. lia.
Qed.

(** ** A call with a count that is not compiled yet *)

Lemma torch_jit_trace_eq kwargs names vs args w :
  _param_names (self w) = Some names →
  fetch (param_store w) names = Ret vs →
  torch_jit_trace fn backend kwargs (vs ++ args) w
  = match traced fn backend args kwargs (vs ++ args) (logged (BackendCompile (vs ++ args)) w) with
    | (w', Some e) => (w', Raise e)
    | (w', None) => (w', Ret {| closure_kwargs := kwargs; example_inputs := vs ++ args |})
    end.
Proof.
  intros Hnames Hvs. unfold torch_jit_trace, traced. rewrite bind_eq.
  change (log_event (BackendCompile (vs ++ args)) w)
    with (logged (BackendCompile (vs ++ args)) w, Ret tt).
  set (w3 := logged _ w). cbv beta iota.
  destruct (rejects backend (vs ++ args)); [done|]. rewrite bind_eq.
  destruct (traces backend); [|done].
  rewrite bind_eq, (compiled_closure_eq _ _ names vs) by done.
  destruct (returned (fn Compile (param_store w3) args kwargs)) as [v|e]; [|done].
  cbv beta iota. simpl.
  by destruct (trace_failure backend kwargs (vs ++ args) v).
Qed.

Lemma call_first_time_eq args kwargs w :
  compiled (self w) !! length args = None →
  __call__ fn backend args kwargs w = first_call fn backend args kwargs w.
Proof.
  intros Hnone. unfold __call__, first_call. rewrite bind_eq.
  change (get w) with (w, Ret w). cbv beta iota.
  rewrite bool_decide_eq_true_2 by done.
  rewrite bind_eq. unfold first_time. rewrite bind_eq, call_fn_eq.
  destruct (returned (fn Capture (param_store w) args kwargs)) as [v|e]; [|done].
  rewrite bind_eq.
  change (set_self _ (after_fn fn Capture args kwargs w))
    with (with_names (list_of_set (dict_keys (param_sites (fn Capture (param_store w) args kwargs))))
            (after_fn fn Capture args kwargs w), Ret tt).
  set (names := list_of_set _). set (w2 := with_names names _). cbv beta iota.
  rewrite bind_eq. unfold the_param_names at 1. rewrite bind_eq.
  change (get w2) with (w2, Ret w2). cbv beta iota.
  change (_param_names (self w2)) with (Some names). cbv beta iota.
  change (@mret Py _ _ names w2) with (w2, Ret names). cbv beta iota.
  rewrite bind_eq, for_list_fetch.
  destruct (fetch (param_store w2) names) as [vs|e] eqn:Hvs; [|done].
  rewrite bind_eq, (torch_jit_trace_eq _ names vs) by done.
  destruct (traced fn backend args kwargs (vs ++ args) _) as [w4 [e|]] eqn:Htraced; [done|].
  assert (_param_names (self w4) = Some names) as Hnames4.
  { unfold traced in Htraced. destruct (rejects backend _); [done|].
    destruct (traces backend); injection Htraced; by intros; subst. }
  cbv beta iota. rewrite bind_eq.
  set (artifact := {| closure_kwargs := kwargs; example_inputs := vs ++ args |}).
  change (set_self _ w4) with (with_artifact (length args) artifact w4, Ret tt).
  set (w5 := with_artifact _ _ w4). cbv beta iota.
  change (@mret Py _ _ (vs ++ args) w5) with (w5, Ret (vs ++ args)). cbv beta iota.
  apply invoke_and_check_eq.
  - simpl. by rewrite lookup_insert_eq.
  - done.
Qed.

(** What the first call with a count does to the wrapper and to the
    number of compilations: either it raises and the cache is as before,
    or the cache has one more entry, made by one compilation, with the
    keyword arguments of this call. The list of parameter names is the
    one of this call as soon as the capture returns. *)
Lemma call_first_time args kwargs w :
  compiled (self w) !! length args = None →
  let r := __call__ fn backend args kwargs w in
  let capture := fn Capture (param_store w) args kwargs in
  ((compiled (self r.1) = compiled (self w) ∧ is_Raise r.2
    ∧ compilations (events r.1) ≤ S (compilations (events w)))
   ∨ (∃ params_and_args,
        compiled (self r.1)
        = <[length args := {| closure_kwargs := kwargs; example_inputs := params_and_args |}]>
            (compiled (self w))
        ∧ compilations (events r.1) = S (compilations (events w))))
  ∧ (is_Ret (returned capture) →
     _param_names (self r.1) = Some (list_of_set (dict_keys (param_sites capture)))).
Proof.
  intros Hnone r capture. subst r.
  rewrite (call_first_time_eq _ _ _ Hnone). unfold first_call. fold capture.
  destruct (returned capture) as [v|e]; simpl.
  2:{ split; [|done]. left. repeat split.
      rewrite compilations_snoc. simpl. lia. }
  destruct (fetch _ _) as [vs|e]; simpl.
  2:{ split; [|done]. left. repeat split. rewrite compilations_snoc. simpl. lia. }
  unfold traced. destruct (rejects backend (vs ++ args)); simpl.
  { split; [|done]. left. repeat split. rewrite !compilations_snoc. simpl. lia. }
  destruct (traces backend); simpl.
  - destruct (returned (fn Compile _ args kwargs)) as [v'|e]; simpl.
    2:{ split; [|done]. left. repeat split. rewrite !compilations_snoc. simpl. lia. }
    destruct (trace_failure backend kwargs (vs ++ args) v') as [e|]; simpl.
    { split; [|done]. left. repeat split. rewrite !compilations_snoc. simpl. lia. }
    split; [|done]. right. eexists. split; [done|].
    rewrite !compilations_snoc. simpl. lia.
  - split; [|done]. right. eexists. split; [done|].
    rewrite !compilations_snoc. simpl. lia.
Qed.

(** A first call whose count is in the cache afterwards: one
    compilation, an artifact with the keyword arguments of the call, and
    the names of its capture. *)
Lemma call_first_time_cached args kwargs w :
  compiled (self w) !! length args = None →
  let r := __call__ fn backend args kwargs w in
  is_Some (compiled (self r.1) !! length args) →
  ∃ params_and_args names,
    compiled (self r.1)
    = <[length args := {| closure_kwargs := kwargs; example_inputs := params_and_args |}]>
        (compiled (self w))
    ∧ _param_names (self r.1) = Some names
    ∧ compilations (events r.1) = S (compilations (events w)).
Proof.
  intros Hnone r [a Ha]. subst r.
  destruct (call_first_time args kwargs w Hnone) as [[(Hsame & _) | (pa & Hcache & Hcount)] _].
  { rewrite Hsame in Ha. congruence. }
  exists pa. revert Ha Hcache Hcount.
  rewrite (call_first_time_eq _ _ _ Hnone). unfold first_call.
  destruct (returned (fn Capture _ _ _)) as [v|e]; simpl; [|congruence].
  destruct (fetch _ _) as [vs|e]; simpl; [|congruence].
  unfold traced. destruct (rejects backend (vs ++ args)); simpl; [congruence|].
  destruct (traces backend); simpl.
  - destruct (returned (fn Compile _ args kwargs)) as [v'|e]; simpl; [|congruence].
    destruct (trace_failure backend kwargs (vs ++ args) v'); simpl; [congruence|].
    intros _ Hcache Hcount. by eexists.
  - intros _ Hcache Hcount. by eexists.
Qed.

(** Once a first call has returned, its count is compiled. *)
Lemma call_first_time_Ret args kwargs w :
  compiled (self w) !! length args = None →
  is_Ret (__call__ fn backend args kwargs w).2 →
  is_Some (compiled (self (__call__ fn backend args kwargs w).1) !! length args).
Proof.
  intros Hnone Hret.
  destruct (call_first_time args kwargs w Hnone) as [[(_ & Hraise & _) | (pa & -> & _)] _].
  - by destruct (__call__ fn backend args kwargs w).2.
  - rewrite lookup_insert_eq. by eexists.
Qed.

(** No call removes or replaces an entry of the cache, and a call adds
    an entry for its own count at most. *)
Lemma call_keeps_entries args kwargs w n :
  (∀ artifact, compiled (self w) !! n = Some artifact →
     compiled (self (__call__ fn backend args kwargs w).1) !! n = Some artifact)
  ∧ (n ≠ length args →
     compiled (self (__call__ fn backend args kwargs w).1) !! n = compiled (self w) !! n).
Proof.
  destruct (compiled (self w) !! length args) as [a|] eqn:Ha.
  - destruct (call_compiled_keeps args kwargs w) as [-> _]; [congruence|]. done.
  - destruct (call_first_time args kwargs w Ha) as [[(-> & _) | (pa & -> & _)] _]; [done|].
    split.
    + intros artifact Hn. rewrite lookup_insert_ne; [done|]. intros <-. congruence.
    + intros Hne. by rewrite lookup_insert_ne.
Qed.

Lemma run_calls_keep_entries calls w n artifact :
  compiled (self w) !! n = Some artifact →
  compiled (self (run_calls fn backend calls w)) !! n = Some artifact.
Proof.
  revert w. induction calls as [|[args kwargs] calls IH]; intros w Hn; [done|].
  simpl. apply IH. by apply call_keeps_entries.
Qed.

(** ** The claims on the wrapper *)

(** C7. Two calls with the same number of positional arguments, the
    first of which gets its artifact into the cache, as every first call
    that returns does, make one compilation: the second call compiles
    nothing, leaves the wrapper as it is, reads the parameters of the
    list of names and calls the artifact that the first call has cached
    on them and on its own arguments (or fails while it reads them, in
    the world it started in). Two calls with different numbers of
    positional arguments that get their artifacts into the cache compile
    once each, and the cache has their two entries on top of what it had.
    The cache of a new wrapper is empty, a call touches no entry but the
    one of its own count, and no sequence of calls removes or replaces an
    entry. *)
Theorem C7_one_compilation_per_argument_count :
  (∀ w args1 kwargs1 args2 kwargs2,
     length args1 = length args2 →
     compiled (self w) !! length args1 = None →
     let r1 := __call__ fn backend args1 kwargs1 w in
     let r2 := __call__ fn backend args2 kwargs2 r1.1 in
     is_Some (compiled (self r1.1) !! length args1) →
     compilations (events r1.1) = S (compilations (events w))
     ∧ compilations (events r2.1) = S (compilations (events w))
     ∧ self r2.1 = self r1.1
     ∧ ∃ artifact names,
         compiled (self r1.1) !! length args1 = Some artifact
         ∧ _param_names (self r1.1) = Some names
         ∧ r2 = match fetch (param_store r1.1) names with
                | Ret vs => invoke backend (length args2) artifact names (vs ++ args2) r1.1
                | Raise e => (r1.1, Raise e)
                end)
  ∧ (∀ w args kwargs,
       compiled (self w) !! length args = None →
       is_Ret (__call__ fn backend args kwargs w).2 →
       is_Some (compiled (self (__call__ fn backend args kwargs w).1) !! length args))
  ∧ (∀ w args1 kwargs1 args2 kwargs2,
       length args1 ≠ length args2 →
       compiled (self w) !! length args1 = None →
       compiled (self w) !! length args2 = None →
       let r1 := __call__ fn backend args1 kwargs1 w in
       let r2 := __call__ fn backend args2 kwargs2 r1.1 in
       is_Some (compiled (self r1.1) !! length args1) →
       is_Some (compiled (self r2.1) !! length args2) →
       compilations (events r1.1) = S (compilations (events w))
       ∧ compilations (events r2.1) = S (compilations (events r1.1))
       ∧ ∃ artifact1 artifact2,
           compiled (self r2.1)
           = <[length args2 := artifact2]> (<[length args1 := artifact1]> (compiled (self w)))
           ∧ compiled (self r2.1) !! length args1 = Some artifact1
           ∧ compiled (self r2.1) !! length args2 = Some artifact2)
  ∧ (∀ ignore, compiled (__init__ ignore) = ∅)
  ∧ (∀ w args kwargs n,
       n ≠ length args →
       compiled (self (__call__ fn backend args kwargs w).1) !! n = compiled (self w) !! n)
  ∧ (∀ w calls n artifact,
       compiled (self w) !! n = Some artifact →
       compiled (self (run_calls fn backend calls w)) !! n = Some artifact).
Proof.
  split; [|split; [|split; [|split; [|split]]]].
  - intros w args1 kwargs1 args2 kwargs2 Hlen Hnone r1 r2 Hsome.
    destruct (call_first_time_cached args1 kwargs1 w Hnone Hsome)
      as (pa & names & Hcache & Hnames & Hcount).
    fold r1 in Hcache, Hnames, Hcount.
    assert (compiled (self r1.1) !! length args2
            = Some {| closure_kwargs := kwargs1; example_inputs := pa |}) as Ha.
    { by rewrite Hcache, <- Hlen, lookup_insert_eq. }
    destruct (call_compiled_keeps args2 kwargs2 r1.1) as [Hself Hsame]; [congruence|].
    fold r2 in Hself, Hsame. repeat split; [done | congruence | done |].
    eexists _, names. split; [by rewrite Hlen|]. split; [done|].
    subst r2. by rewrite (call_compiled_eq _ _ _ _ Ha), Hnames.
  - intros w args kwargs. apply call_first_time_Ret.
  - intros w args1 kwargs1 args2 kwargs2 Hlen Hnone1 Hnone2 r1 r2 Hsome1 Hsome2.
    destruct (call_first_time_cached args1 kwargs1 w Hnone1 Hsome1)
      as (pa1 & names1 & Hcache1 & _ & Hcount1).
    fold r1 in Hcache1, Hcount1.
    assert (compiled (self r1.1) !! length args2 = None) as Hnone2'.
    { rewrite Hcache1, lookup_insert_ne; done. }
    destruct (call_first_time_cached args2 kwargs2 r1.1 Hnone2' Hsome2)
      as (pa2 & names2 & Hcache2 & _ & Hcount2).
    fold r2 in Hcache2, Hcount2.
    split; [done|]. split; [done|].
    eexists _, _. rewrite Hcache2, Hcache1. split; [done|]. split.
    + rewrite lookup_insert_ne by done. by rewrite lookup_insert_eq.
    + by rewrite lookup_insert_eq.
  - done.
  - intros w args kwargs n Hne. by apply call_keeps_entries.
  - intros w calls n artifact. apply run_calls_keep_entries.
Qed.

(** C8. In a call with a compiled count whose artifact returns, the
    names of the parameter sites that the run of the artifact has gone
    through are checked against the list of names that the wrapper has
    at that call. When one of them is not in the list, the call raises
    [NotImplementedError], with the name of such a parameter in its
    message, and returns nothing; when they all are in the list, the call
    returns what the artifact returns. *)
Theorem C8_new_parameter_is_fatal w args kwargs artifact names vs :
  compiled (self w) !! length args = Some artifact →
  _param_names (self w) = Some names →
  fetch (param_store w) names = Ret vs →
  let run := run_of backend artifact (vs ++ args) w in
  is_Ret (returned run) →
  ((∃ name, name ∈ param_sites run ∧ name ∉ names) →
   ∃ name, name ∈ param_sites run ∧ (name ∉ names)
           ∧ (__call__ fn backend args kwargs w).2
             = Raise (NotImplementedError (new_param_msg name)))
  ∧ (Forall (λ name, name ∈ names) (param_sites run) →
     (__call__ fn backend args kwargs w).2 = returned run).
Proof.
  intros Hart Hnames Hvs run Hret.
  rewrite (call_compiled_eq _ _ _ _ Hart), Hnames, Hvs. simpl. fold run.
  destruct (returned run) as [v|e] eqn:Hv; [|done].
  destruct (call_result_cases names run v Hv) as [[Hall ->] | (bad & Hin & Hnot & ->)].
  - split; [|done]. intros (name & Hname & Hnew). exfalso. apply Hnew.
    by apply (proj1 (Forall_forall _ _) Hall).
  - split; [intros _; by exists bad|].
    intros Hall. exfalso. apply Hnot. by apply (proj1 (Forall_forall _ _) Hall).
Qed.


(** C10. A call with a compiled count does not look at its keyword
    arguments: with any other keyword arguments it does the same. It
    adds one event, the call of the artifact on the parameters followed
    by its positional arguments, and its result is decided by the run of
    the artifact on those inputs. The artifact of a count was made from
    the closure of the call that compiled the count, which holds the
    keyword arguments of that call, and it stays in the cache through all
    later calls. In the compiling call, a backend that takes the inputs
    and traces runs the function on the arguments and keyword arguments
    of that call; and an
    artifact that is the closure itself runs the function on the
    arguments it is given and the keyword arguments that the closure
    holds. *)
Theorem C10_keyword_arguments_of_the_first_call :
  (∀ w args kwargs kwargs',
     compiled (self w) !! length args ≠ None →
     __call__ fn backend args kwargs w = __call__ fn backend args kwargs' w)
  ∧ (∀ w args kwargs artifact names vs,
       compiled (self w) !! length args = Some artifact →
       _param_names (self w) = Some names →
       fetch (param_store w) names = Ret vs →
       events (__call__ fn backend args kwargs w).1
       = events w ++ [ArtifactCall (length args) (vs ++ args)]
       ∧ (__call__ fn backend args kwargs w).2
         = call_result names (run_of backend artifact (vs ++ args) w))
  ∧ (∀ w args kwargs calls artifact,
       compiled (self w) !! length args = None →
       let w' := (__call__ fn backend args kwargs w).1 in
       compiled (self w') !! length args = Some artifact →
       closure_kwargs artifact = kwargs
       ∧ compiled (self (run_calls fn backend calls w')) !! length args = Some artifact)
  ∧ (∀ w args kwargs vs,
       compiled (self w) !! length args = None →
       let capture := fn Capture (param_store w) args kwargs in
       is_Ret (returned capture) →
       fetch (store_after capture) (list_of_set (dict_keys (param_sites capture))) = Ret vs →
       rejects backend (vs ++ args) = None → traces backend = true →
       ∃ rest,
         events (__call__ fn backend args kwargs w).1
         = events w ++ [FnCall Capture args kwargs; BackendCompile (vs ++ args);
                        FnCall Compile args kwargs] ++ rest)
  ∧ (∀ artifact wrapper store names vs args,
       _param_names wrapper = Some names →
       fetch store names = Ret vs →
       let run := fn Invoke store args (closure_kwargs artifact) in
       returned (closure_run fn artifact wrapper store (vs ++ args)) = returned run
       ∧ store_after (closure_run fn artifact wrapper store (vs ++ args)) = store_after run).
Proof.
  split; [|split; [|split; [|split]]].
  - intros w args kwargs kwargs' Hsome.
    unfold __call__. rewrite !bind_eq.
    change (get w) with (w, Ret w). cbv beta iota.
    by rewrite bool_decide_eq_false_2.
  - intros w args kwargs artifact names vs Hart Hnames Hvs.
    by rewrite (call_compiled_eq _ _ _ _ Hart), Hnames, Hvs.
  - intros w args kwargs calls artifact Hnone w' Hart.
    split; [|by apply run_calls_keep_entries].
    destruct (call_first_time args kwargs w Hnone) as [[(Hsame & _) | (pa & Hcache & _)] _];
      [fold w' in Hsame | fold w' in Hcache].
    + rewrite Hsame in Hart. congruence.
    + rewrite Hcache, lookup_insert_eq in Hart. by injection Hart as <-.
  - intros w args kwargs vs Hnone capture Hret Hvs Hrejects Htraces.
    rewrite (call_first_time_eq _ _ _ Hnone). unfold first_call. fold capture.
    destruct (returned capture) as [v|e]; [|done].
    cbv zeta.
    change (param_store (with_names (list_of_set (dict_keys (param_sites capture)))
                           (after_fn fn Capture args kwargs w)))
      with (store_after capture).
    rewrite Hvs. unfold traced. rewrite Hrejects, Htraces. simpl.
    destruct (returned (fn Compile _ args kwargs)) as [v'|e]; simpl.
    2:{ exists []. by rewrite <- !app_assoc. }
    destruct (trace_failure backend kwargs (vs ++ args) v'); simpl.
    + exists []. by rewrite <- !app_assoc.
    + eexists [_]. by rewrite <- !app_assoc.
  - intros artifact wrapper store names vs args Hnames Hvs run.
    unfold closure_run.
    rewrite (compiled_closure_eq _ _ names vs) by done. simpl. fold run.
    by destruct (returned run).
Qed.

End Properties.

(** ** The claims at concrete calls *)

Local Open Scope Z_scope.

(** The world after a first call with two positional arguments, with a
    backend that traces and with the JIT switched off. *)
Abbreviation after_two := (__call__ example_fn tracing_backend [1; 2] [] new_world).1.
Abbreviation after_two_off :=
  (__call__ example_fn (closure_backend example_fn) [1; 2] [] new_world).1.

(** C7, the claim as stated fails. Two calls with the same two
    arguments, in each of which the run under the tracing of the backend
    raises, ask the backend to compile twice: the first call leaves the
    count uncompiled, and the cache is empty after the second. *)
Lemma C7_counterexample :
  let r1 := __call__ fragile_fn tracing_backend [-1; 2] [] new_world in
  let r2 := __call__ fragile_fn tracing_backend [-1; 2] [] r1.1 in
  r1.2 = Raise (OtherError "TracingError")
  ∧ compiled (self r1.1) !! 2%nat = None
  ∧ r2.2 = Raise (OtherError "TracingError")
  ∧ compilations (events r2.1) = 2%nat
  ∧ compiled (self r2.1) = ∅.
Proof. vm_compute. repeat split. Qed.

(** C7 at calls with two, two and three positional arguments. *)
Lemma C7_witness :
  (let r1 := __call__ example_fn tracing_backend [1; 2] [] new_world in
   let r2 := __call__ example_fn tracing_backend [3; 4] [("k", 1)] r1.1 in
   compilations (events r1.1) = S (compilations (events new_world))
   ∧ compilations (events r2.1) = S (compilations (events new_world))
   ∧ self r2.1 = self r1.1
   ∧ ∃ artifact names,
       compiled (self r1.1) !! 2%nat = Some artifact
       ∧ _param_names (self r1.1) = Some names
       ∧ r2 = match fetch (param_store r1.1) names with
              | Ret vs => invoke tracing_backend 2 artifact names (vs ++ [3; 4]) r1.1
              | Raise e => (r1.1, Raise e)
              end)
  ∧ (let r1 := __call__ example_fn tracing_backend [1; 2] [] new_world in
     let r2 := __call__ example_fn tracing_backend [1; 2; 3] [] r1.1 in
     compilations (events r1.1) = S (compilations (events new_world))
     ∧ compilations (events r2.1) = S (compilations (events r1.1))
     ∧ ∃ artifact1 artifact2,
         compiled (self r2.1)
         = <[3%nat := artifact2]> (<[2%nat := artifact1]> (compiled (self new_world)))
         ∧ compiled (self r2.1) !! 2%nat = Some artifact1
         ∧ compiled (self r2.1) !! 3%nat = Some artifact2).
Proof.
  split.
  - apply (proj1 (C7_one_compilation_per_argument_count example_fn tracing_backend)
             new_world [1; 2] [] [3; 4] [("k", 1)]).
    + reflexivity.
    + reflexivity.
    + eexists. vm_compute. reflexivity.
  - apply (proj1 (proj2 (proj2 (C7_one_compilation_per_argument_count example_fn tracing_backend)))
             new_world [1; 2] [] [1; 2; 3] []).
    + simpl. lia.
    + reflexivity.
    + reflexivity.
    + eexists. vm_compute. reflexivity.
    + eexists. vm_compute. reflexivity.
Defined.

(** C8, the claim as stated fails for the names that the first call
    with the count has discovered. With the JIT switched off, the first
    call with two arguments discovers [scale] alone; a call with three
    arguments then makes the list of the wrapper [scale] and [loc]; a
    later call with two arguments whose artifact goes through [loc],
    which the first call with two arguments has not discovered,
    returns. *)
Lemma C8_counterexample :
  let backend := closure_backend example_fn in
  let w3 := (__call__ example_fn backend [1; 2; 3] [] after_two_off).1 in
  let r := __call__ example_fn backend [-1; 2] [] w3 in
  _param_names (self after_two_off) = Some ["scale"]
  ∧ ∃ artifact inputs,
      compiled (self w3) !! 2%nat = Some artifact
      ∧ events r.1 = events w3 ++ [ArtifactCall 2 inputs]
      ∧ "loc" ∈ param_sites (run_of backend artifact inputs w3)
      ∧ ("loc" ∉ ["scale"])
      ∧ r.2 = Ret 13.
Proof.
  split; [vm_compute; reflexivity|].
  eexists _, _. split; [vm_compute; reflexivity|].
  split; [vm_compute; reflexivity|].
  split; [vm_compute; by repeat (first [left | right])|].
  split; [|vm_compute; reflexivity].
  intros Hin. apply list_elem_of_singleton in Hin. discriminate.
Qed.

(** C8 at a second call with two arguments, the first of which is
    negative, with the JIT switched off: the function goes through the
    parameter [loc], which is not in the list of the wrapper. *)
Lemma C8_witness :
  let backend := closure_backend example_fn in
  let run := run_of backend {| closure_kwargs := []; example_inputs := [5; 1; 2] |}
               ([5] ++ [-1; 2]) after_two_off in
  ∃ name, name ∈ param_sites run ∧ (name ∉ ["scale"])
          ∧ (__call__ example_fn backend [-1; 2] [("k", 1)] after_two_off).2
            = Raise (NotImplementedError (new_param_msg name)).
Proof.
  intros backend.
  apply (proj1 (C8_new_parameter_is_fatal example_fn backend after_two_off [-1; 2] [("k", 1)]
                  {| closure_kwargs := []; example_inputs := [5; 1; 2] |} ["scale"] [5]
                  eq_refl eq_refl eq_refl I)).
  exists "loc". split.
  - vm_compute. by repeat (first [left | right]).
  - intros Hin. apply list_elem_of_singleton in Hin. discriminate.
Defined.


(** The same call with two arguments, before and after a call with
    three arguments, with a backend that traces: the artifact of the
    count two, a graph with three inputs, is given one parameter and the
    two arguments in the first world and returns; it is given two
    parameters and the two arguments in the second world, and the call
    fails. *)
Example calls_are_not_independent :
  let w' := (__call__ example_fn tracing_backend [1; 2; 3] [] after_two).1 in
  let r := __call__ example_fn tracing_backend [1; 2] [] after_two in
  let r' := __call__ example_fn tracing_backend [1; 2] [] w' in
  events r.1 = events after_two ++ [ArtifactCall 2 [5; 1; 2]]
  ∧ r.2 = Ret 8
  ∧ (∃ inputs, events r'.1 = events w' ++ [ArtifactCall 2 inputs] ∧ length inputs = 4%nat)
  ∧ r'.2 = Raise (OtherError "RuntimeError").
Proof.
  split; [vm_compute; reflexivity|]. split; [vm_compute; reflexivity|].
  split; [|vm_compute; reflexivity].
  eexists. split; vm_compute; reflexivity.
Qed.

(** C10 at a second call with a keyword argument that the first call
    did not have. *)
Lemma C10_witness :
  __call__ example_fn tracing_backend [1; 2] [("k", 1)] after_two
  = __call__ example_fn tracing_backend [1; 2] [] after_two.
Proof.
  apply (proj1 (C10_keyword_arguments_of_the_first_call example_fn tracing_backend)
           after_two [1; 2] [("k", 1)] []).
  vm_compute. discriminate.
Defined.

End JitSpec.

(** * More properties of the estimator *)

Module MeanFieldMore.
Import MeanField MeanFieldSpec.
Local Open Scope py_scope.

(** ** Traces *)

Lemma contains_true name tr : contains name tr = true ↔ name ∈ tr.*1.
Proof. unfold contains. apply bool_decide_eq_true. Qed.

Lemma contains_false name tr : contains name tr = false ↔ name ∉ tr.*1.
Proof. unfold contains. apply bool_decide_eq_false. Qed.

Lemma getitem_Ret name tr site : getitem name tr = Ret site → (name, site) ∈ tr.
Proof.
  induction tr as [|[n s] tr IH]; simpl; [done|].
  case_decide as Hn.
  - intros [= <-]. subst. left.
  - intros H. right. auto.
Qed.

Lemma getitem_Raise name tr e :
  getitem name tr = Raise e → e = KeyError name ∧ name ∉ tr.*1.
Proof.
  induction tr as [|[n s] tr IH]; simpl.
  - intros [= <-]. split; [done | apply not_elem_of_nil].
  - case_decide as Hn; [done|]. intros H. destruct (IH H) as [-> Hnot].
    split; [done|]. apply not_elem_of_cons. split; [congruence | done].
Qed.

Lemma getitem_missing name tr :
  name ∉ tr.*1 → getitem name tr = Raise (KeyError name).
Proof.
  intros Hnot. destruct (getitem name tr) as [site|e] eqn:Hget.
  - apply getitem_Ret in Hget. exfalso. apply Hnot.
    by apply (list_elem_of_fmap_2 fst) in Hget.
  - by destruct (getitem_Raise _ _ _ Hget) as [-> _].
Qed.

(** ** Loops *)

Lemma for_each_app {S A} (body : S → A → M S) (l1 l2 : list A) (s : S) :
  for_each body (l1 ++ l2) s = bind (for_each body l1 s) (for_each body l2).
Proof.
  revert s. induction l1 as [|x l1 IH]; intros s.
  - change (for_each body l2 s = bind (ret s) (for_each body l2)).
    by rewrite bind_ret.
  - simpl. destruct (body s x) as [log [s'|e]]; [|done].
    simpl. rewrite IH.
    destruct (for_each body l1 s') as [log1 [s1|e1]]; [|done].
    simpl. destruct (for_each body l2 s1) as [log2 r2].
    by rewrite app_assoc.
Qed.

Lemma bind_Ret_log {A B} (log : list event) (a : A) (k : A → M B) :
  bind (log, Ret a) k = (log ++ log_of (k a), outcome (k a)).
Proof. unfold bind, log_of, outcome. by destruct (k a). Qed.

Section Properties.

Context (validation : bool) (is_zero : term → bool)
  (scale_mask : tensor → Q → option (list bool) → tensor)
  (kl : Dist → Dist → result tensor).

Abbreviation model_step := (model_site_step validation is_zero scale_mask kl).
Abbreviation guide_step := (guide_site_step validation is_zero).
Abbreviation particle_elbo := (elbo_of_particle validation is_zero scale_mask kl).
Abbreviation particle_loss := (_differentiable_loss_particle validation is_zero scale_mask kl).
Abbreviation the_loss := (loss validation is_zero scale_mask kl).

(** ** The particle *)

(** X1. A latent sample site of the model whose name the guide trace
    does not have makes its step raise [KeyError] on that name, even
    with validation off, before the KL collaborator is called; the
    particle raises, and its log has no call to the KL collaborator for
    that site. *)
Theorem X1_latent_site_missing_from_guide model_trace guide_trace name model_site :
  (name, model_site) ∈ model_trace →
  type model_site = "sample" → is_observed model_site = false →
  contains name guide_trace = false →
  (∀ elbo, model_step guide_trace elbo (name, model_site) = ([], Raise (KeyError name)))
  ∧ is_Raise (outcome (particle_loss model_trace guide_trace))
  ∧ Forall (not_kl_of name) (log_of (particle_loss model_trace guide_trace)).
Proof.
  intros Hin Htype Hobs Hmissing.
  apply contains_false, getitem_missing in Hmissing.
  assert (∀ m elbo, type m = "sample" → is_observed m = false →
            model_step guide_trace elbo (name, m) = ([], Raise (KeyError name))) as Hstep.
  { intros m elbo Hm1 Hm2. unfold model_site_step.
    rewrite decide_True by done. by rewrite Hm2, Hmissing. }
  split; [by auto|]. split.
  - apply (particle_raises_model _ _ _ _ _ _ _ Hin). intros elbo. by rewrite Hstep.
  - apply particle_log. intros elbo [n site] _.
    destruct (decide (n = name)) as [->|Hne].
    + destruct (decide (type site = "sample")) as [Hs|Hs];
        [|rewrite other_site_model_step by done; constructor].
      destruct (is_observed site) eqn:Ho.
      * rewrite observed_site_step by done. constructor.
      * rewrite Hstep by done. constructor.
    + destruct (model_step_log validation is_zero scale_mask kl guide_trace elbo n site)
        as [-> | (q & p & ->)]; repeat constructor. done.
Qed.

(** X2. An exception of the KL collaborator other than
    [NotImplementedError] is not caught: the step of the latent site
    raises it, after the one call to the collaborator, and the fallback
    is not taken. *)
Theorem X2_other_kl_errors_propagate guide_trace elbo name model_site guide_site e :
  type model_site = "sample" → is_observed model_site = false →
  getitem name guide_trace = Ret guide_site →
  check_passes validation is_zero guide_site →
  kl (fn guide_site) (fn model_site) = Raise e →
  (∀ msg, e ≠ NotImplementedError msg) →
  model_step guide_trace elbo (name, model_site)
  = ([KLAttempt name (fn guide_site) (fn model_site)], Raise e).
Proof.
  intros Htype Hobs Hget Hcheck Hkl Hother.
  rewrite (latent_site_step _ _ _ _ _ _ _ _ _ Htype Hobs Hget).
  rewrite (check_passes_ret _ _ _ Hcheck), bind_ret.
  unfold call_kl_divergence. rewrite Hkl. simpl.
  destruct e; try done. by destruct (Hother msg).
Qed.

(** X4. When the sample sites of the model are all observed and the
    guide has no sample site, the particle logs nothing, raises nothing
    and returns twice the negated sum of the [log_prob_sum] of the sample
    sites of the model, whatever the validation switch and the
    collaborators are. *)
Theorem X4_particle_of_observed_sites model_trace guide_trace :
  all_observed model_trace → no_sample_site guide_trace →
  particle_loss model_trace guide_trace
  = ([], Ret (- total_log_prob model_trace, - total_log_prob model_trace)%Q).
Proof.
  intros Hm Hg. unfold _differentiable_loss_particle.
  by rewrite (elbo_all_observed _ _ _ _ _ _ Hm Hg), bind_ret.
Qed.

Lemma model_step_attempts guide_trace elbo entry :
  log_of (model_step guide_trace elbo entry) `prefix_of` attempts_of guide_trace entry
  ∧ (is_Ret (outcome (model_step guide_trace elbo entry)) →
     log_of (model_step guide_trace elbo entry) = attempts_of guide_trace entry).
Proof.
  destruct entry as [name site].
  unfold model_site_step, attempts_of, _check_fully_reparametrized, call_kl_divergence.
  destruct (decide (type site = "sample")) as [Hs|Hs]; [|done].
  destruct (is_observed site); [done|].
  destruct (getitem name guide_trace) as [guide_site|e]; [|done].
  rewrite bind_pure.
  destruct validation; [destruct (negb (fully_rep is_zero guide_site));
                        [split; [apply prefix_nil | done]|]|];
    rewrite bind_ret; simpl;
    (destruct (kl (fn guide_site) (fn site)) as [t|[]]; simpl; try done;
     [by destruct (bool_decide _) | by destruct (term_sum _)]).
Qed.

(** X5. The calls to the KL collaborator. The log of a particle is a
    prefix of the list that has, in the order of the model trace, one
    call per latent sample site of the model that the guide trace has,
    on the distribution of the guide site and the distribution of the
    model site; when the particle returns, the log is that list: one
    call per latent site, no more, and no warning. *)
Theorem X5_one_kl_call_per_latent_site model_trace guide_trace :
  log_of (particle_loss model_trace guide_trace)
    `prefix_of` latent_attempts guide_trace model_trace
  ∧ (is_Ret (outcome (particle_loss model_trace guide_trace)) →
     log_of (particle_loss model_trace guide_trace)
     = latent_attempts guide_trace model_trace).
Proof.
  assert (∀ l acc,
    log_of (for_each (model_step guide_trace) l acc) `prefix_of` latent_attempts guide_trace l
    ∧ (is_Ret (outcome (for_each (model_step guide_trace) l acc)) →
       log_of (for_each (model_step guide_trace) l acc) = latent_attempts guide_trace l))
    as Hmodel.
  { induction l as [|x l IH]; intros acc; [done|].
    rewrite for_each_cons, log_of_bind, outcome_bind.
    destruct (model_step_attempts guide_trace acc x) as [Hpre Heq].
    unfold latent_attempts. simpl.
    destruct (outcome (model_step guide_trace acc x)) as [acc'|e].
    - rewrite Heq by done. destruct (IH acc') as [Hpre' Heq'].
      split; [by apply prefix_app|]. intros Hret. by rewrite Heq'.
    - split; [by apply prefix_app_r | done]. }
  assert (∀ l acc, log_of (for_each (guide_step model_trace) l acc) = []) as Hguide.
  { induction l as [|x l IH]; intros acc; [done|].
    rewrite for_each_cons, log_of_bind, guide_step_log.
    destruct (outcome _); [apply IH | done]. }
  unfold _differentiable_loss_particle, elbo_of_particle.
  rewrite log_of_bind, !outcome_bind, log_of_bind.
  destruct (Hmodel model_trace 0%Q) as [Hpre Heq].
  destruct (outcome (for_each (model_step guide_trace) model_trace 0%Q)) as [elbo|e].
  - rewrite Hguide, app_nil_r, Heq by done.
    destruct (outcome (for_each (guide_step model_trace) guide_trace elbo)); simpl;
      rewrite ?app_nil_r; done.
  - done.
Qed.

(** ** The loss *)

Lemma loss_step_Ret (num_particles : Z) acc model_trace guide_trace r :
  num_particles ≠ 0%Z →
  outcome (particle_loss model_trace guide_trace) = Ret r →
  loss_step validation is_zero scale_mask kl num_particles acc (model_trace, guide_trace)
  = (log_of (particle_loss model_trace guide_trace),
     Ret (acc + r.1 / inject_Z num_particles)%Q).
Proof.
  intros HN Hr. unfold loss_step, outcome, log_of in *.
  destruct (particle_loss model_trace guide_trace) as [log res].
  simpl in Hr. subst res. simpl. rewrite decide_False by done.
  simpl. by rewrite app_nil_r.
Qed.

Lemma loss_step_Raise (num_particles : Z) acc model_trace guide_trace e :
  outcome (particle_loss model_trace guide_trace) = Raise e →
  loss_step validation is_zero scale_mask kl num_particles acc (model_trace, guide_trace)
  = (log_of (particle_loss model_trace guide_trace), Raise e).
Proof.
  intros Hr. unfold loss_step, outcome, log_of in *.
  destruct (particle_loss model_trace guide_trace) as [log res].
  simpl in Hr. by subst res.
Qed.

Lemma loss_loop_returns (num_particles : Z) traces rs :
  num_particles ≠ 0%Z →
  Forall2 (λ pair r, outcome (particle_loss pair.1 pair.2) = Ret r) traces rs →
  ∀ acc, ∃ v,
    for_each (loss_step validation is_zero scale_mask kl num_particles) traces acc
    = (particle_logs validation is_zero scale_mask kl traces, Ret v)
    ∧ (v == acc + sum_Q (map fst rs) / inject_Z num_particles)%Q.
Proof.
  intros HN Hall.
  assert (¬ (inject_Z num_particles == 0)%Q) as HNQ.
  { unfold Qeq. simpl. lia. }
  induction Hall as [|[m g] r traces rs Hr _ IH]; intros acc.
  - exists acc. split; [done|]. simpl. field. done.
  - rewrite for_each_cons. simpl in Hr. rewrite (loss_step_Ret _ _ _ _ r) by done.
    destruct (IH (acc + r.1 / inject_Z num_particles)%Q) as (v & Hv & Heq).
    exists v. split.
    + unfold bind. by rewrite Hv.
    + rewrite Heq. simpl. field. done.
Qed.

(** X8. When [num_particles] is not zero and every particle returns,
    [loss] returns, after the logs of the particles in their order. Its
    value is the negation of what the loop has accumulated from zero: the
    first component of each particle divided by [num_particles], added on
    one after the other, in the order of the particles. *)
Theorem X8_loss_of_particles_that_return (num_particles : Z) traces rs :
  num_particles ≠ 0%Z →
  Forall2 (λ pair r, outcome (particle_loss pair.1 pair.2) = Ret r) traces rs →
  the_loss num_particles traces
  = (particle_logs validation is_zero scale_mask kl traces,
     Ret (- foldl (λ elbo r, elbo + r.1 / inject_Z num_particles) 0 rs)%Q).
Proof.
  intros HN Hall. unfold loss.
  assert (∀ acc,
            for_each (loss_step validation is_zero scale_mask kl num_particles) traces acc
            = (particle_logs validation is_zero scale_mask kl traces,
               Ret (foldl (λ elbo r, elbo + r.1 / inject_Z num_particles) acc rs)%Q)) as ->.
  { induction Hall as [|[m g] r traces rs Hr _ IH]; intros acc; [done|].
    rewrite for_each_cons. simpl in Hr. rewrite (loss_step_Ret _ _ _ _ r) by done.
    unfold bind. by rewrite IH. }
  simpl. by rewrite app_nil_r.
Qed.

(** X9. The first particle that raises ends [loss]: [loss] raises the
    exception of that particle, its log stops with the log of that
    particle, and the pairs of traces that follow are not looked at. *)
Theorem X9_loss_raises_what_a_particle_raises
    (num_particles : Z) before model_trace guide_trace after e :
  num_particles ≠ 0%Z →
  Forall (λ pair : Trace * Trace, is_Ret (outcome (particle_loss pair.1 pair.2))) before →
  outcome (particle_loss model_trace guide_trace) = Raise e →
  the_loss num_particles (before ++ (model_trace, guide_trace) :: after)
  = (particle_logs validation is_zero scale_mask kl before ++ log_of (particle_loss model_trace guide_trace), Raise e).
Proof.
  intros HN Hbefore Hraise.
  assert (∃ rs, Forall2 (λ pair r, outcome (particle_loss pair.1 pair.2) = Ret r) before rs)
    as [rs Hrs].
  { induction Hbefore as [|pair before Hret _ [rs IH]]; [by exists []|].
    destruct (outcome (particle_loss pair.1 pair.2)) as [r|] eqn:Hr; [|done].
    exists (r :: rs). by constructor. }
  destruct (loss_loop_returns _ _ _ HN Hrs 0%Q) as (v & Hv & _).
  unfold loss. rewrite for_each_app, Hv, bind_Ret_log, for_each_cons.
  by rewrite (loss_step_Raise _ _ _ _ e).
Qed.

(** X10. Without any pair of traces [loss] returns zero and divides
    nothing, whatever [num_particles] is. With [num_particles = 0] and at
    least one pair, [loss] does not return: it raises what the first
    particle raises, or [ZeroDivisionError] when that particle returns,
    and the other pairs are not looked at. *)
Theorem X10_loss_without_particles (num_particles : Z) model_trace guide_trace rest :
  the_loss num_particles [] = ([], Ret 0%Q)
  ∧ the_loss 0 ((model_trace, guide_trace) :: rest)
    = (log_of (particle_loss model_trace guide_trace),
       match outcome (particle_loss model_trace guide_trace) with
       | Ret _ => Raise ZeroDivisionError
       | Raise e => Raise e
       end).
Proof.
  split; [done|].
  unfold loss. rewrite for_each_cons. unfold loss_step at 1, outcome, log_of.
  destruct (particle_loss model_trace guide_trace) as [log [r|e]]; simpl; [|done].
  by rewrite app_nil_r.
Qed.

End Properties.

(** ** The mean-field check *)

Lemma elem_of_sample_sites_in a b name :
  name ∈ sample_sites_in a b ↔ shared_sample a b name.
Proof.
  unfold sample_sites_in, shared_sample. rewrite list_elem_of_fmap. split.
  - intros ([n site] & -> & Hin). apply list_elem_of_filter in Hin as [[Hs Hc] Hin].
    exists site. simpl in *. split; [done|]. split; [done|]. by apply contains_true.
  - intros (site & Hin & Hs & Hc). exists (name, site). split; [done|].
    apply list_elem_of_filter. split; [|done]. split; [done|]. by apply contains_true.
Qed.

Lemma check_outcome model_trace guide_trace :
  outcome (_check_mean_field_requirement model_trace guide_trace)
  = if bool_decide (list_to_set (sample_sites_in model_trace guide_trace)
                    =@{gset string} list_to_set (sample_sites_in guide_trace model_trace))
    then Ret tt else Raise AssertionError.
Proof.
  unfold _check_mean_field_requirement.
  destruct (bool_decide (list_to_set _ = list_to_set _)); [|done].
  rewrite bind_ret. by destruct (bool_decide (_ ≠ _)).
Qed.

(** X11. The check treats the two traces alike: it raises on the model
    and the guide exactly when it raises on the guide and the model, and
    it warns exactly when it warns the other way round. *)
Theorem X11_mean_field_check_is_symmetric model_trace guide_trace :
  outcome (_check_mean_field_requirement model_trace guide_trace)
  = outcome (_check_mean_field_requirement guide_trace model_trace)
  ∧ (log_of (_check_mean_field_requirement model_trace guide_trace) = []
     ↔ log_of (_check_mean_field_requirement guide_trace model_trace) = []).
Proof.
  split.
  - rewrite !check_outcome. apply (f_equal (λ b : bool, if b then Ret tt else Raise AssertionError)).
    apply bool_decide_ext. split; by intros ->.
  - unfold _check_mean_field_requirement.
    set (ms := sample_sites_in model_trace guide_trace).
    set (gs := sample_sites_in guide_trace model_trace).
    destruct (decide (list_to_set ms =@{gset string} list_to_set gs)) as [Hset|Hset].
    + rewrite (bool_decide_eq_true_2 (list_to_set ms = list_to_set gs)) by done.
      rewrite (bool_decide_eq_true_2 (list_to_set gs = list_to_set ms)) by done.
      rewrite !bind_ret.
      destruct (decide (ms = gs)) as [Heq|Hne].
      * rewrite (bool_decide_eq_false_2 (ms ≠ gs)) by (intros H; by apply H).
        rewrite (bool_decide_eq_false_2 (gs ≠ ms)) by (intros H; by apply H).
        done.
      * rewrite (bool_decide_eq_true_2 (ms ≠ gs)) by done.
        rewrite (bool_decide_eq_true_2 (gs ≠ ms)) by (by intros ?).
        done.
    + rewrite (bool_decide_eq_false_2 (list_to_set ms = list_to_set gs)) by done.
      rewrite (bool_decide_eq_false_2 (list_to_set gs = list_to_set ms)) by (by intros ?).
      done.
Qed.

(** X12. The check returns exactly when the two traces share their
    sample sites: every name that is a sample site of one trace and a
    name of the other is a sample site of the other as well. Otherwise it
    fails on its assertion; it raises nothing else. When the shared sample
    sites come in the same order it is silent. And [_get_trace] gives
    back the pair of traces it was given whenever it returns. *)
Theorem X12_mean_field_check_outcomes model_trace guide_trace :
  (outcome (_check_mean_field_requirement model_trace guide_trace) = Ret tt
   ↔ ∀ name, shared_sample model_trace guide_trace name
             ↔ shared_sample guide_trace model_trace name)
  ∧ (outcome (_check_mean_field_requirement model_trace guide_trace) = Ret tt
     ∨ outcome (_check_mean_field_requirement model_trace guide_trace) = Raise AssertionError)
  ∧ (sample_sites_in model_trace guide_trace = sample_sites_in guide_trace model_trace →
     _check_mean_field_requirement model_trace guide_trace = ([], Ret tt))
  ∧ (∀ validation,
       outcome (_get_trace validation (model_trace, guide_trace))
       = Ret (model_trace, guide_trace)
       ∨ outcome (_get_trace validation (model_trace, guide_trace)) = Raise AssertionError).
Proof.
  split; [|split; [|split]].
  - rewrite check_outcome. case_bool_decide as Hset.
    + split; [|done]. intros _ name.
      rewrite <- !elem_of_sample_sites_in.
      rewrite <- !(elem_of_list_to_set (C:=gset string)). by rewrite Hset.
    + split; [done|]. intros Hall. exfalso. apply Hset.
      apply set_eq. intros name. rewrite !elem_of_list_to_set.
      rewrite !elem_of_sample_sites_in. apply Hall.
  - rewrite check_outcome. case_bool_decide; auto.
  - intros Heq. unfold _check_mean_field_requirement. rewrite Heq.
    rewrite bool_decide_eq_true_2 by done. rewrite bind_ret.
    rewrite bool_decide_eq_false_2; [done|]. intros H. by apply H.
  - intros validation. unfold _get_trace. rewrite outcome_bind.
    destruct validation; [|by left].
    rewrite check_outcome. case_bool_decide; auto.
Qed.

(** ** The properties at concrete traces *)

Abbreviation run_particle validation :=
  (_differentiable_loss_particle validation number_is_zero scale_and_mask_entries kl_normal_only).
Abbreviation run_elbo validation :=
  (elbo_of_particle validation number_is_zero scale_and_mask_entries kl_normal_only).
Abbreviation run_model_step validation :=
  (model_site_step validation number_is_zero scale_and_mask_entries kl_normal_only).
Abbreviation run_loss validation :=
  (loss validation number_is_zero scale_and_mask_entries kl_normal_only).

(** X1 at the latent site [z] of a model whose guide is empty. *)
Lemma X1_witness :
  (∀ elbo, run_model_step false [] elbo
             ("z", latent_site (Normal []) (reparameterized_parts (-2)) (-2))
           = ([], Raise (KeyError "z")))
  ∧ is_Raise (outcome (run_particle false unguided_model []))
  ∧ Forall (not_kl_of "z") (log_of (run_particle false unguided_model [])).
Proof.
  apply (X1_latent_site_missing_from_guide false number_is_zero
           scale_and_mask_entries kl_normal_only unguided_model [] "z").
  - right. left.
  - reflexivity.
  - reflexivity.
  - reflexivity.
Defined.

(** X2 with a KL collaborator that raises an exception of its own. *)
Lemma X2_witness :
  let guide_site := latent_site (Normal []) (reparameterized_parts (-1)) (-1) in
  let model_site := latent_site (Normal []) (reparameterized_parts (-2)) (-2) in
  model_site_step true number_is_zero scale_and_mask_entries kl_broken
    [("z", guide_site)] 0%Q ("z", model_site)
  = ([KLAttempt "z" (Normal []) (Normal [])], Raise (OtherError "ValueError")).
Proof.
  intros guide_site model_site.
  apply (X2_other_kl_errors_propagate true number_is_zero scale_and_mask_entries
           kl_broken [("z", guide_site)] 0%Q "z" model_site guide_site
           (OtherError "ValueError")).
  - reflexivity.
  - reflexivity.
  - reflexivity.
  - right. reflexivity.
  - reflexivity.
  - intros msg. discriminate.
Defined.

(** X4 at a model with a parameter and two observed sites. *)
Lemma X4_witness :
  let model_trace := [("scale", param_site); ("x", observed_site (Normal []) (-1));
                      ("y", observed_site (Normal []) (-2))] in
  let guide_trace := [("scale", param_site)] in
  run_particle true model_trace guide_trace
  = ([], Ret (- total_log_prob model_trace, - total_log_prob model_trace)%Q).
Proof.
  intros model_trace guide_trace.
  apply (X4_particle_of_observed_sites true number_is_zero scale_and_mask_entries
           kl_normal_only model_trace guide_trace).
  - unfold all_observed. repeat constructor; done.
  - unfold no_sample_site. repeat constructor; done.
Defined.

(** X5 at a particle that returns: one call for [z], one call for [y]. *)
Lemma X5_witness :
  log_of (run_particle true example_model example_guide)
  = latent_attempts example_guide example_model.
Proof.
  apply (proj2 (X5_one_kl_call_per_latent_site true number_is_zero
                  scale_and_mask_entries kl_normal_only example_model example_guide)).
  vm_compute. exact I.
Defined.

(** X8 at two particles of the example and [num_particles = 2]. *)
Lemma X8_witness :
  let traces := [(example_model, example_guide); (example_model, example_guide)] in
  let rs := [(13 # 2, 13 # 2); (13 # 2, 13 # 2)] in
  run_loss true 2 traces
  = (particle_logs true number_is_zero scale_and_mask_entries kl_normal_only traces,
     Ret (- foldl (λ elbo r, elbo + r.1 / inject_Z 2) 0 rs)%Q).
Proof.
  intros traces rs.
  apply (X8_loss_of_particles_that_return true number_is_zero scale_and_mask_entries
           kl_normal_only 2 traces rs).
  - discriminate.
  - repeat constructor.
Defined.

(** X9 at a particle that returns, a particle that raises [KeyError]
    and a particle that is not reached. *)
Lemma X9_witness :
  run_loss true 1 ([(example_model, example_guide)]
                   ++ (unguided_model, []) :: [(example_model, example_guide)])
  = (particle_logs true number_is_zero scale_and_mask_entries kl_normal_only
       [(example_model, example_guide)]
     ++ log_of (run_particle true unguided_model []),
     Raise (KeyError "z")).
Proof.
  apply (X9_loss_raises_what_a_particle_raises true number_is_zero
           scale_and_mask_entries kl_normal_only 1
           [(example_model, example_guide)] unguided_model []
           [(example_model, example_guide)] (KeyError "z")).
  - discriminate.
  - repeat constructor.
  - reflexivity.
Defined.

(** X12 at the example, whose shared sample sites [z] and [y] come in
    the same order in the two traces. *)
Lemma X12_witness :
  _check_mean_field_requirement example_model example_guide = ([], Ret tt).
Proof.
  apply (proj1 (proj2 (proj2 (X12_mean_field_check_outcomes example_model example_guide)))).
  reflexivity.
Defined.

End MeanFieldMore.

(** * More properties of the wrapper *)

Module JitMore.
Import Jit JitSpec.
#[local] Set Warnings "-clear-no-such-hyp".

Lemma difference_of_known_count (x : nat) (R D : gset nat) :
  x ∈ D → ({[x]} ∪ R) ∖ D = R ∖ D.
Proof. set_solver. Qed.

Lemma difference_of_new_count (x : nat) (R D : gset nat) :
  x ∉ D →
  ({[x]} ∪ R) ∖ D = {[x]} ∪ R ∖ ({[x]} ∪ D)
  ∧ {[x]} ## R ∖ ({[x]} ∪ D).
Proof.
  intros Hnot. split; [|set_solver].
  apply set_eq. intros y. destruct (decide (y = x)) as [->|Hne]; set_solver.
Qed.

Section Properties.

Context (fn : Fn) (backend : Backend).

Lemma call_result_known names run v :
  returned run = Ret v →
  Forall (λ name, name ∈ names) (param_sites run) →
  call_result names run = Ret v.
Proof.
  intros Hv Hknown.
  destruct (call_result_cases names run v Hv) as [[_ ->] | (bad & Hin & Hnot & _)]; [done|].
  exfalso. apply Hnot. by apply (proj1 (Forall_forall _ _) Hknown).
Qed.

(** ** A call with a count that is compiled *)

(** X15. A call with a compiled count returns what its artifact
    returns. When the parameters of the list of names are in the store,
    and the artifact, called on them followed by the positional arguments
    of the call, returns a value and goes through no parameter outside
    the list (a traced graph goes through none), the call returns that
    value; the wrapper is as before, the store is the one that the
    artifact leaves, and the call of the artifact is the one event. *)
Theorem X15_compiled_call_returns_the_value w args kwargs artifact names vs v :
  compiled (self w) !! length args = Some artifact →
  _param_names (self w) = Some names →
  fetch (param_store w) names = Ret vs →
  let run := run_of backend artifact (vs ++ args) w in
  returned run = Ret v →
  Forall (λ name, name ∈ names) (param_sites run) →
  __call__ fn backend args kwargs w
  = ({| self := self w; param_store := store_after run;
        events := events w ++ [ArtifactCall (length args) (vs ++ args)] |},
     Ret v).
Proof.
  intros Hart Hnames Hvs run Hv Hknown.
  rewrite (call_compiled_eq fn backend _ _ _ _ Hart), Hnames, Hvs.
  unfold invoke. fold run. by rewrite (call_result_known _ _ _ Hv Hknown).
Qed.

(** ** The first call with a count *)

(** X16. The first call with a count, with a backend that traces. The
    function runs under the capture, then under the tracing of the
    backend in the store that the capture has left, on the arguments and
    keyword arguments of the call both times; then the new artifact is
    called once, on the parameters of the captured names followed by the
    arguments. When the two runs return, the backend does not fail, and
    the artifact returns a value and goes through no parameter that the
    capture has not seen, the call returns that value; the count is in
    the cache with the keyword arguments of the call, and the names of
    the wrapper are those of the capture. *)
Theorem X16_first_call_returns_the_value w args kwargs vs v :
  compiled (self w) !! length args = None →
  let capture := fn Capture (param_store w) args kwargs in
  let names := list_of_set (dict_keys (param_sites capture)) in
  let tracing := fn Compile (store_after capture) args kwargs in
  let artifact := {| closure_kwargs := kwargs; example_inputs := vs ++ args |} in
  let wrapper := {| compiled := <[length args := artifact]> (compiled (self w));
                    ignore_warnings := ignore_warnings (self w);
                    _param_names := Some names |} in
  let run := artifact_run backend artifact wrapper (store_after tracing) (vs ++ args) in
  is_Ret (returned capture) →
  fetch (store_after capture) names = Ret vs →
  rejects backend (vs ++ args) = None → traces backend = true →
  (∃ t, returned tracing = Ret t ∧ trace_failure backend kwargs (vs ++ args) t = None) →
  returned run = Ret v →
  Forall (λ name, name ∈ names) (param_sites run) →
  __call__ fn backend args kwargs w
  = ({| self := wrapper; param_store := store_after run;
        events := events w ++ [FnCall Capture args kwargs; BackendCompile (vs ++ args);
                               FnCall Compile args kwargs;
                               ArtifactCall (length args) (vs ++ args)] |},
     Ret v).
Proof.
  intros Hnone. cbv zeta. intros Hc Hvs Hrejects Htraces (t & Ht & Hfail) Hv Hknown.
  rewrite (call_first_time_eq fn backend _ _ _ Hnone). unfold first_call. cbv zeta.
  change (param_store (with_names (list_of_set (dict_keys
            (param_sites (fn Capture (param_store w) args kwargs))))
            (after_fn fn Capture args kwargs w)))
    with (store_after (fn Capture (param_store w) args kwargs)).
  destruct (returned (fn Capture _ _ _)); [|done].
  rewrite Hvs. unfold traced. rewrite Hrejects, Htraces. simpl.
  rewrite Ht, Hfail. unfold invoke, after_artifact, run_of. simpl.
  rewrite (call_result_known _ _ _ Hv Hknown).
  by rewrite <- !app_assoc.
Qed.

(** X17. The artifact is put in the cache before it is called. After
    the first call with a count, the count is in the cache exactly when
    the capture has returned, the parameters of its names have been read
    from the store, the backend has taken the inputs and, if it traces,
    the run under the tracing has returned and the backend has not failed
    afterwards; what the call of the artifact and the check of the names
    do then does not matter. Once the count is in the cache, a later call
    with that count compiles nothing and leaves the wrapper as it is. *)
Theorem X17_cached_before_the_artifact_runs w args kwargs :
  compiled (self w) !! length args = None →
  let capture := fn Capture (param_store w) args kwargs in
  let names := list_of_set (dict_keys (param_sites capture)) in
  let tracing := fn Compile (store_after capture) args kwargs in
  let w' := (__call__ fn backend args kwargs w).1 in
  (is_Some (compiled (self w') !! length args)
   ↔ is_Ret (returned capture)
     ∧ ∃ vs, fetch (store_after capture) names = Ret vs
             ∧ rejects backend (vs ++ args) = None
             ∧ (traces backend = true →
                ∃ t, returned tracing = Ret t
                     ∧ trace_failure backend kwargs (vs ++ args) t = None))
  ∧ (is_Some (compiled (self w') !! length args) →
     ∀ args2 kwargs2, length args2 = length args →
       compilations (events (__call__ fn backend args2 kwargs2 w').1)
       = compilations (events w')
       ∧ self (__call__ fn backend args2 kwargs2 w').1 = self w').
Proof.
  intros Hnone. cbv zeta. split.
  - rewrite (call_first_time_eq fn backend _ _ _ Hnone). unfold first_call. cbv zeta.
    change (param_store (with_names (list_of_set (dict_keys
              (param_sites (fn Capture (param_store w) args kwargs))))
              (after_fn fn Capture args kwargs w)))
      with (store_after (fn Capture (param_store w) args kwargs)).
    destruct (returned (fn Capture _ _ _)); simpl.
    2:{ rewrite Hnone. split; [by intros [? ?] | by intros [? _]]. }
    destruct (fetch _ _) as [vs|e]; simpl.
    2:{ rewrite Hnone. split; [by intros [? ?] | by intros [_ (? & ? & _)]]. }
    unfold traced. destruct (rejects backend (vs ++ args)) as [e|] eqn:Hrejects; simpl.
    { rewrite Hnone. split; [by intros [? ?]|].
      intros [_ (vs' & [= <-] & Hr & _)]. congruence. }
    destruct (traces backend); simpl.
    + destruct (returned (fn Compile _ _ _)) as [t|e]; simpl.
      2:{ rewrite Hnone. split; [by intros [? ?]|].
          intros [_ (vs' & _ & _ & Ht)]. by destruct Ht as (t & ? & _). }
      destruct (trace_failure backend kwargs (vs ++ args) t) as [e|] eqn:Hfail; simpl.
      { rewrite Hnone. split; [by intros [? ?]|].
        intros [_ (vs' & [= <-] & _ & Ht)].
        destruct Ht as (t' & [= <-] & Hnofail); [done|]. congruence. }
      rewrite lookup_insert_eq. split; [|by eexists].
      intros _. split; [done|]. exists vs. repeat split; [done|].
      intros _. by exists t.
    + rewrite lookup_insert_eq. split; [|by eexists].
      intros _. split; [done|]. by exists vs.
  - intros [a Ha] args2 kwargs2 Hlen.
    destruct (call_compiled_keeps fn backend args2 kwargs2
                (__call__ fn backend args kwargs w).1) as [Hself Hcount]; [|done].
    rewrite Hlen. congruence.
Qed.

(** X18. How a first call fails before the artifact is cached. When the
    run under the capture raises, the call raises the same exception, the
    wrapper is as before and the backend has not been called. When the
    capture returns, the parameters of its names are read from the store
    and the run under the tracing of the backend raises, the call raises
    the same exception after one call to the backend: the cache is as
    before, but the list of names of the wrapper is already the one of
    this capture. The same holds when the backend turns the inputs down,
    and when the run under the tracing returns and the backend then fails
    on its own. When the capture returns and one of its names is not in
    the store that it leaves, the call raises the [KeyError] of the
    lookup before the backend is called, and the list of names is
    overwritten all the same. *)
Theorem X18_first_call_failures w args kwargs e :
  compiled (self w) !! length args = None →
  let capture := fn Capture (param_store w) args kwargs in
  let names := list_of_set (dict_keys (param_sites capture)) in
  let store1 := store_after capture in
  let tracing := fn Compile store1 args kwargs in
  let r := __call__ fn backend args kwargs w in
  (returned capture = Raise e →
     r.2 = Raise e ∧ self r.1 = self w
     ∧ compilations (events r.1) = compilations (events w))
  ∧ (∀ vs,
       is_Ret (returned capture) → fetch store1 names = Ret vs →
       rejects backend (vs ++ args) = None → traces backend = true →
       returned tracing = Raise e →
       r.2 = Raise e ∧ compiled (self r.1) = compiled (self w)
       ∧ _param_names (self r.1) = Some names
       ∧ compilations (events r.1) = S (compilations (events w)))
  ∧ (∀ vs,
       is_Ret (returned capture) → fetch store1 names = Ret vs →
       rejects backend (vs ++ args) = Some e
       ∨ (∃ v, rejects backend (vs ++ args) = None ∧ traces backend = true
               ∧ returned tracing = Ret v
               ∧ trace_failure backend kwargs (vs ++ args) v = Some e) →
       r.2 = Raise e ∧ compiled (self r.1) = compiled (self w)
       ∧ _param_names (self r.1) = Some names
       ∧ compilations (events r.1) = S (compilations (events w)))
  ∧ (is_Ret (returned capture) → fetch store1 names = Raise e →
     r.2 = Raise e ∧ compiled (self r.1) = compiled (self w)
     ∧ _param_names (self r.1) = Some names
     ∧ compilations (events r.1) = compilations (events w)).
Proof.
  intros Hnone. cbv zeta.
  rewrite (call_first_time_eq fn backend _ _ _ Hnone). unfold first_call. cbv zeta.
  change (param_store (with_names (list_of_set (dict_keys
            (param_sites (fn Capture (param_store w) args kwargs))))
            (after_fn fn Capture args kwargs w)))
    with (store_after (fn Capture (param_store w) args kwargs)).
  split; [|split; [|split]].
  - intros ->. simpl. repeat split. rewrite compilations_snoc. simpl. lia.
  - intros vs Hc Hfetch Hrejects Htraces Htracing.
    destruct (returned (fn Capture _ _ _)); [|done].
    rewrite Hfetch. unfold traced. rewrite Hrejects, Htraces. simpl. rewrite Htracing.
    repeat split. simpl. rewrite !compilations_snoc. simpl. lia.
  - intros vs Hc Hfetch Hfail.
    destruct (returned (fn Capture _ _ _)); [|done].
    rewrite Hfetch. unfold traced.
    destruct Hfail as [Hrejects | (v & Hrejects & Htraces & Htracing & Hfail)].
    + rewrite Hrejects. repeat split. simpl. rewrite !compilations_snoc. simpl. lia.
    + rewrite Hrejects, Htraces. simpl. rewrite Htracing, Hfail.
      repeat split. simpl. rewrite !compilations_snoc. simpl. lia.
  - intros Hc Hfetch. destruct (returned (fn Capture _ _ _)); [|done].
    rewrite Hfetch. repeat split. simpl. rewrite compilations_snoc. simpl. lia.
Qed.

(** ** Sequences of calls *)

(** X20. One compilation per count, over any sequence of calls that
    return: afterwards the counts of the cache are the counts it had and
    the counts of the calls, and the backend has been called once for
    each count of the calls that the cache did not have. For a new
    wrapper, the number of compilations is the number of different counts
    of the calls. *)
Theorem X20_one_compilation_for_each_new_count calls w :
  all_return fn backend calls w →
  let w' := run_calls fn backend calls w in
  dom (compiled (self w')) = dom (compiled (self w)) ∪ counts calls
  ∧ compilations (events w')
    = (compilations (events w) + size (counts calls ∖ dom (compiled (self w))))%nat.
Proof.
  revert w. induction calls as [|[args kwargs] calls IH]; intros w Hret.
  - simpl. unfold counts. simpl. split; [set_solver|].
    replace (∅ ∖ dom (compiled (self w))) with (∅ : gset nat) by set_solver.
    rewrite size_empty. lia.
  - destruct Hret as [Hret Hrest]. simpl in Hret, Hrest.
    specialize (IH _ Hrest). simpl in IH. destruct IH as [IHdom IHcount].
    simpl. rewrite IHdom, IHcount.
    replace (counts ((args, kwargs) :: calls)) with ({[length args]} ∪ counts calls)
      by done.
    destruct (compiled (self w) !! length args) as [artifact|] eqn:Ha.
    + destruct (call_compiled_keeps fn backend args kwargs w) as [-> ->]; [congruence|].
      assert (length args ∈ dom (compiled (self w))) as Hin
        by (apply elem_of_dom; by eexists).
      split; [set_solver|].
      by rewrite difference_of_known_count.
    + destruct (call_first_time_cached fn backend args kwargs w Ha)
        as (pa & names & -> & _ & ->); [by apply call_first_time_Ret|].
      assert (length args ∉ dom (compiled (self w))) as Hnot
        by by apply not_elem_of_dom.
      rewrite dom_insert_L. split; [set_solver|].
      destruct (difference_of_new_count (length args) (counts calls) _ Hnot)
        as [-> Hdisjoint].
      rewrite (size_union (C:=gset nat) _ _ Hdisjoint), size_singleton. lia.
Qed.

End Properties.

(** ** The properties at concrete calls *)

Local Open Scope Z_scope.

(** X15 at a second call with two arguments and a keyword argument: it
    returns the sum of the parameter and the two arguments. *)
Lemma X15_witness :
  let run := run_of tracing_backend {| closure_kwargs := []; example_inputs := [5; 1; 2] |}
               ([5] ++ [3; 4]) after_two in
  __call__ example_fn tracing_backend [3; 4] [("k", 1)] after_two
  = ({| self := self after_two; param_store := store_after run;
        events := events after_two ++ [ArtifactCall 2 ([5] ++ [3; 4])] |},
     Ret 12).
Proof.
  apply (X15_compiled_call_returns_the_value example_fn tracing_backend after_two
           [3; 4] [("k", 1)] {| closure_kwargs := []; example_inputs := [5; 1; 2] |}
           ["scale"] [5] 12).
  - vm_compute. reflexivity.
  - vm_compute. reflexivity.
  - vm_compute. reflexivity.
  - vm_compute. reflexivity.
  - constructor.
Defined.

(** X16 at the first call of a new wrapper, with a keyword argument. *)
Lemma X16_witness :
  let artifact := {| closure_kwargs := [("k", 1)]; example_inputs := [5] ++ [1; 2] |} in
  let wrapper := {| compiled := <[2%nat := artifact]> (compiled (self new_world));
                    ignore_warnings := ignore_warnings (self new_world);
                    _param_names := Some (list_of_set (dict_keys ["scale"])) |} in
  __call__ example_fn tracing_backend [1; 2] [("k", 1)] new_world
  = ({| self := wrapper; param_store := <["scale" := 5]> ∅;
        events := events new_world
                  ++ [FnCall Capture [1; 2] [("k", 1)]; BackendCompile ([5] ++ [1; 2]);
                      FnCall Compile [1; 2] [("k", 1)]; ArtifactCall 2 ([5] ++ [1; 2])] |},
     Ret 9).
Proof.
  apply (X16_first_call_returns_the_value example_fn tracing_backend new_world
           [1; 2] [("k", 1)] [5] 9).
  - reflexivity.
  - exact I.
  - vm_compute. reflexivity.
  - reflexivity.
  - reflexivity.
  - exists 9. split; vm_compute; reflexivity.
  - vm_compute. reflexivity.
  - constructor.
Defined.

(** X17 at the first call of a new wrapper and a second call with the
    same number of arguments. *)
Lemma X17_witness :
  let w' := (__call__ example_fn tracing_backend [1; 2] [] new_world).1 in
  let r := __call__ example_fn tracing_backend [3; 4] [("k", 1)] w' in
  compilations (events r.1) = compilations (events w') ∧ self r.1 = self w'.
Proof.
  apply (proj2 (X17_cached_before_the_artifact_runs example_fn tracing_backend
                  new_world [1; 2] [] eq_refl)).
  - eexists. vm_compute. reflexivity.
  - reflexivity.
Defined.

(** X18 at a call without arguments, whose capture raises, and at a
    call with a negative argument, whose tracing raises. *)
Lemma X18_witness :
  (let r := __call__ fragile_fn tracing_backend [] [] new_world in
   r.2 = Raise TypeError ∧ self r.1 = self new_world
   ∧ compilations (events r.1) = compilations (events new_world))
  ∧ (let r := __call__ fragile_fn tracing_backend [-1] [] new_world in
     r.2 = Raise (OtherError "TracingError")
     ∧ compiled (self r.1) = compiled (self new_world)
     ∧ _param_names (self r.1) = Some (list_of_set (dict_keys ["scale"]))
     ∧ compilations (events r.1) = S (compilations (events new_world))).
Proof.
  split.
  - apply (proj1 (X18_first_call_failures fragile_fn tracing_backend new_world [] []
                    TypeError eq_refl)).
    reflexivity.
  - apply (proj1 (proj2 (X18_first_call_failures fragile_fn tracing_backend new_world [-1] []
                           (OtherError "TracingError") eq_refl)) [5]).
    + exact I.
    + vm_compute. reflexivity.
    + reflexivity.
    + reflexivity.
    + reflexivity.
Defined.

(** X20 at four calls with two, two, three and two arguments: two
    compilations. *)
Lemma X20_witness :
  let calls := [([1; 2], []); ([3; 4], [("k", 1)]); ([1; 2; 3], []); ([5; 6], [])] in
  let w' := run_calls fragile_fn tracing_backend calls new_world in
  dom (compiled (self w')) = dom (compiled (self new_world)) ∪ counts calls
  ∧ compilations (events w')
    = (compilations (events new_world)
       + size (counts calls ∖ dom (compiled (self new_world))))%nat.
Proof.
  intros calls.
  apply (X20_one_compilation_for_each_new_count fragile_fn tracing_backend calls new_world).
  vm_compute. repeat split.
Defined.

End JitMore.
